(** * Mapped serialization core of MLDB (memory_region.cc)

    A shallow embedding of the frozen / mutable memory regions, the heap and
    file backed serializers, the zip structured serializer and reconstituter
    and the read-side stream buffer, together with the properties that the
    specification states about them.

    Conventions of the embedding:
    - [size_t] and [uint64_t] values are integers in [0, 2^64); every
      arithmetic operation the source performs on them is written with its
      wrap-around ([add64], [sub64], [mul64]).
    - pointers are integers; [nullptr] is [0]; pointer arithmetic is exact
      (overflowing a pointer is undefined in the source language).
    - a C++ exception is the outcome [Throw]; undefined behaviour of the
      source (calling [back()] on an empty vector, a zero divisor) is the
      outcome [Undefined]; the end of the process by [std::terminate] (an
      exception leaving a destructor) is the outcome [Terminated].
    - the operating system and the C library are oracles, indexed by a
      clock that advances at every call, so that the same call may answer
      differently at different times. *)

From Stdlib Require Import ZArith List String Lia Bool.
Import ListNotations.
Open Scope Z_scope.

(* ================================================================= *)
(** ** Machine integers *)

Definition size_t_modulus : Z := 2 ^ 64.

Definition to_size_t (z : Z) : Z := z mod size_t_modulus.

Definition add64 (a b : Z) : Z := to_size_t (a + b).
Definition sub64 (a b : Z) : Z := to_size_t (a - b).
Definition mul64 (a b : Z) : Z := to_size_t (a * b).

(** The size of a pointer on the 64-bit targets the code is built for. *)
Definition pointer_size : Z := 8.

(** [MAP_FAILED] is the all-ones pointer. *)
Definition MAP_FAILED : Z := size_t_modulus - 1.

(** Narrowing of a 64-bit offset to [int], as the implicit conversion at a
    call of [gbump(int)] does. *)
Definition to_int (z : Z) : Z := (z + 2 ^ 31) mod 2 ^ 32 - 2 ^ 31.

(* ================================================================= *)
(** ** Outcomes *)

Inductive Exception : Type :=
| HttpReturnException (code : Z) (msg : string)
| AssertionFailure (what : string)
| StdException (msg : string).

Inductive Outcome (A : Type) : Type :=
| Ok (a : A)
| Throw (e : Exception)
| Undefined
| OutOfFuel
| Terminated.

Arguments Ok {A} a.
Arguments Throw {A} e.
Arguments Undefined {A}.
Arguments OutOfFuel {A}.
Arguments Terminated {A}.

(* ================================================================= *)
(** ** Ownership handles and memory *)

(** The release action attached to a [std::shared_ptr<void>]. *)
Inductive Deleter : Type :=
| FreeDeleter      (* [::free(mem)] *)
| NoopDeleter      (* the empty lambda *)
| MunmapDeleter (mapLength : Z).

(** A [std::shared_ptr<void>]: the pointer [get()] returns and the release
    action of its control block; the empty pointer has neither. *)
Record shared_ptr : Type := mk_shared_ptr {
  get : Z;
  deleter : option Deleter
}.

Definition null_shared_ptr : shared_ptr := {| get := 0; deleter := None |}.

Definition Memory : Type := Z -> Byte.byte.

Fixpoint memcpy (mem : Memory) (dst : Z) (src : list Byte.byte) : Memory :=
  match src with
  | [] => mem
  | b :: rest =>
      memcpy (fun p => if p =? dst then b else mem p) (dst + 1) rest
  end.

Fixpoint read_bytes (mem : Memory) (p : Z) (n : nat) : list Byte.byte :=
  match n with
  | O => []
  | S k => mem p :: read_bytes mem (p + 1) k
  end.

(* ================================================================= *)
(** ** FrozenMemoryRegion *)

Module FrozenMemoryRegion.

Record t : Type := make {
  data : Z;
  length : Z;
  handle : shared_ptr
}.

(** The default constructed region. *)
Definition empty : t :=
  {| data := 0; length := 0; handle := null_shared_ptr |}.

(** [FrozenMemoryRegion::range(start, end)]. *)
Definition range (r : t) (start end_ : Z) : Outcome t :=
  if end_ <? start then Throw (AssertionFailure "end >= start")
  else if length r <? end_ then Throw (AssertionFailure "end <= length()")
  else Ok {| data := data r + start;
             length := sub64 end_ start;
             handle := handle r |}.

(** The byte sequence a region denotes in a given memory. *)
Definition bytes (mem : Memory) (r : t) : list Byte.byte :=
  read_bytes mem (data r) (Z.to_nat (length r)).

End FrozenMemoryRegion.

(* ================================================================= *)
(** ** MutableMemoryRegion *)

(** The serializer a writable region came from ([MutableMemoryRegion::Itl::owner]);
    [freeze] is dispatched on it. *)
Inductive Owner : Type :=
| OwnerMemorySerializer
| OwnerFileSerializer
| OwnerEntrySerializer.

Module MutableMemoryRegion.

Record t : Type := make {
  handle : shared_ptr;
  data : Z;
  length : Z;
  owner : Owner
}.

End MutableMemoryRegion.

(* ================================================================= *)
(** ** The environment: operating system and C library *)

(** Each oracle takes the time of the call first.  [ftruncate] and [fstat]
    answer [0] or [-1]; [mmap] and [mremap] answer an address or
    [MAP_FAILED]; [posix_memalign] answers its error code and the pointer it
    stored; [archive_write_header] answers a libarchive status ([0] is
    [ARCHIVE_OK]) and [archive_write_data], given the length, the number of
    bytes written.  [page_size] is the constant of [mldb/arch/vm.h].
    [vector_reallocates n] tells whether [emplace_back] on a [std::vector]
    that has grown to [n] elements one [emplace_back] at a time finds it
    full and moves the elements to new storage: the growth policy of the
    C++ library, which takes no clock. *)
Record Sys : Type := {
  page_size : Z;
  ftruncate : nat -> Z -> Z;
  fstat : nat -> Z;
  mmap : nat -> Z -> Z -> Z;
  mremap : nat -> Z -> Z -> Z -> Z;
  posix_memalign : nat -> Z -> Z -> Z * Z;
  archive_write_header : nat -> Z;
  archive_write_data : nat -> Z -> Z;
  vector_reallocates : nat -> bool
}.

(* ================================================================= *)
(** ** A state and exception monad *)

Definition M (S A : Type) : Type := S -> Outcome A * S.

Definition ret {S A : Type} (a : A) : M S A := fun s => (Ok a, s).

Definition bind {S A B : Type} (c : M S A) (k : A -> M S B) : M S B :=
  fun s =>
    match c s with
    | (Ok a, s') => k a s'
    | (Throw e, s') => (Throw e, s')
    | (Undefined, s') => (Undefined, s')
    | (OutOfFuel, s') => (OutOfFuel, s')
    | (Terminated, s') => (Terminated, s')
    end.

Definition throw {S A : Type} (e : Exception) : M S A := fun s => (Throw e, s).

Definition undefined {S A : Type} : M S A := fun s => (Undefined, s).

Definition gets {S A : Type} (f : S -> A) : M S A := fun s => (Ok (f s), s).

Definition modify {S : Type} (f : S -> S) : M S unit := fun s => (Ok tt, f s).

Declare Scope monad_scope.
Delimit Scope monad_scope with monad.
Notation "x <- c ;; k" := (bind c (fun x => k))
  (at level 61, c at next level, right associativity) : monad_scope.
Notation "c ;; k" := (bind c (fun _ => k))
  (at level 61, right associativity) : monad_scope.
Open Scope monad_scope.

(* ================================================================= *)
(** ** MemorySerializer *)

Module MemorySerializer.

(** [MemorySerializer::allocateWritable], called at time [now] on the
    serializer [this] (a [MemorySerializer] or a class derived from it).
    The assertion that [bytesRequired] survives the conversion to [size_t]
    always holds on a 64-bit target and is left out. *)
Definition allocateWritable (sys : Sys) (now : nat) (this : Owner)
    (bytesRequired alignment : Z) : Outcome MutableMemoryRegion.t :=
  let alignment :=
    if alignment <? pointer_size then pointer_size else alignment in
  let '(res, mem) := posix_memalign sys now alignment bytesRequired in
  if negb (res =? 0) then
    Throw (HttpReturnException 400 "Error allocating writable memory")
  else
    Ok {| MutableMemoryRegion.handle :=
            {| get := mem; deleter := Some FreeDeleter |};
          MutableMemoryRegion.data := mem;
          MutableMemoryRegion.length := bytesRequired;
          MutableMemoryRegion.owner := this |}.

(** [MemorySerializer::freeze]. *)
Definition freeze (region : MutableMemoryRegion.t) : FrozenMemoryRegion.t :=
  {| FrozenMemoryRegion.data := MutableMemoryRegion.data region;
     FrozenMemoryRegion.length := MutableMemoryRegion.length region;
     FrozenMemoryRegion.handle := MutableMemoryRegion.handle region |}.

End MemorySerializer.

(* ================================================================= *)
(** ** FileSerializer *)

Module Arena.

Record t : Type := make {
  addr : Z;
  startOffset : Z;
  length : Z;
  currentOffset : Z
}.

(** The constructor [Arena(addr, startOffset, length)]. *)
Definition create (addr startOffset length : Z) : t :=
  {| addr := addr; startOffset := startOffset; length := length;
     currentOffset := 0 |}.

(** [Arena::allocate(bytes, alignment)]; the result pointer is [0] for
    [nullptr].  The remainder by a zero alignment is undefined in the
    source and is guarded by the caller below. *)
Definition allocate (bytes alignment : Z) (a : t) : Z * t :=
  let extraBytes := currentOffset a mod alignment in
  let extraBytes :=
    if 0 <? extraBytes then sub64 alignment extraBytes else extraBytes in
  if length a <? add64 (add64 (currentOffset a) bytes) extraBytes then (0, a)
  else
    (addr a + extraBytes + currentOffset a,
     {| addr := addr a; startOffset := startOffset a; length := length a;
        currentOffset := add64 (currentOffset a) (add64 extraBytes bytes) |}).

(** The move constructor [Arena(Arena && other)]: it takes the address, the
    start offset and the length of [other]; [currentOffset] keeps its
    default member initializer, [0]. *)
Definition move (other : t) : t :=
  {| addr := addr other; startOffset := startOffset other;
     length := length other; currentOffset := 0 |}.

(** [Arena::freeSpace()]. *)
Definition freeSpace (a : t) : Z := sub64 (length a) (currentOffset a).

Definition set_length (a : t) (n : Z) : t :=
  {| addr := addr a; startOffset := startOffset a; length := n;
     currentOffset := currentOffset a |}.

End Arena.

Module FileSerializer.

(** The state of [FileSerializer::Itl] together with the part of the world
    it acts on: [now] is the clock of the oracles, [file_size] the length
    of the file behind [fd]. *)
Record Itl : Type := make {
  now : nat;
  file_size : Z;
  currentlyAllocated : Z;
  arenas : list Arena.t
}.

(** The state right after the constructor has opened the file with
    [O_TRUNC]. *)
Definition fresh (t0 : nat) : Itl :=
  {| now := t0; file_size := 0; currentlyAllocated := 0; arenas := [] |}.

Definition tick (s : Itl) : Itl :=
  {| now := S (now s); file_size := file_size s;
     currentlyAllocated := currentlyAllocated s; arenas := arenas s |}.

Definition set_file_size (n : Z) (s : Itl) : Itl :=
  {| now := now s; file_size := n;
     currentlyAllocated := currentlyAllocated s; arenas := arenas s |}.

Definition set_currentlyAllocated (n : Z) (s : Itl) : Itl :=
  {| now := now s; file_size := file_size s;
     currentlyAllocated := n; arenas := arenas s |}.

Definition set_arenas (l : list Arena.t) (s : Itl) : Itl :=
  {| now := now s; file_size := file_size s;
     currentlyAllocated := currentlyAllocated s; arenas := l |}.

Section WithSys.

Variable sys : Sys.

(** System calls on [fd]. *)
Definition call_ftruncate (len : Z) : M Itl Z :=
  fun s =>
    let res := ftruncate sys (now s) len in
    (Ok res, tick (if res =? 0 then set_file_size len s else s)).

Definition call_fstat : M Itl (Z * Z) :=
  fun s => (Ok (fstat sys (now s), file_size s), tick s).

Definition call_mmap (len offset : Z) : M Itl Z :=
  fun s => (Ok (mmap sys (now s) len offset), tick s).

Definition call_mremap (old_address old_size new_size : Z) : M Itl Z :=
  fun s => (Ok (mremap sys (now s) old_address old_size new_size), tick s).

(** [arenas.back()]. *)
Definition back : M Itl Arena.t :=
  fun s =>
    match rev (arenas s) with
    | [] => (Undefined, s)
    | a :: _ => (Ok a, s)
    end.

(** Assignment through the reference [arenas.back()]. *)
Definition set_back (a : Arena.t) : M Itl unit :=
  modify (fun s => set_arenas (removelast (arenas s) ++ [a]) s).

(** [arenas.emplace_back(addr, startOffset, length)] on the vector [ars]:
    when the vector is full its elements are first moved to new storage
    with the move constructor (the copy constructor is deleted). *)
Definition emplaced (ars : list Arena.t) (a : Arena.t) : list Arena.t :=
  (if vector_reallocates sys (List.length ars) then map Arena.move ars else ars)
  ++ [a].

(** [verifyLength()]. *)
Definition verifyLength : M Itl unit :=
  st <- call_fstat ;;
  if fst st =? -1 then throw (HttpReturnException 500 "fstat")
  else
    ca <- gets currentlyAllocated ;;
    if snd st =? ca then ret tt
    else throw (AssertionFailure "st.st_size == currentlyAllocated").

(** [createNewArena(bytesRequired)]. *)
Definition createNewArena (bytesRequired : Z) : M Itl unit :=
  verifyLength ;;
  ca <- gets currentlyAllocated ;;
  let numPages :=
    Z.max (sub64 (add64 bytesRequired (page_size sys)) 1 / page_size sys)
          1024 in
  let numPages :=
    Z.max numPages
          (sub64 (add64 ca (page_size sys)) 1 / page_size sys / 8) in
  let newLength := mul64 numPages (page_size sys) in
  res <- call_ftruncate (add64 ca newLength) ;;
  if res =? -1 then throw (HttpReturnException 500 "ftruncate failed")
  else
    addr <- call_mmap newLength ca ;;
    if addr =? MAP_FAILED then
      throw (HttpReturnException 400 "Failed to open memory map file")
    else
      modify (fun s =>
                set_arenas (emplaced (arenas s) (Arena.create addr ca newLength)) s) ;;
      modify (set_currentlyAllocated (add64 ca newLength)) ;;
      verifyLength.

(** The number of bytes [expandLastArena] adds to the last arena. *)
Definition expansion (bytesRequired : Z) : Z :=
  Z.max (sub64 (add64 bytesRequired (page_size sys)) 1 / page_size sys)
        (mul64 10000 (page_size sys)).

(** [expandLastArena(bytesRequired)]. *)
Definition expandLastArena (bytesRequired : Z) : M Itl bool :=
  verifyLength ;;
  last <- back ;;
  let newLength := add64 (Arena.length last) (expansion bytesRequired) in
  ca <- gets currentlyAllocated ;;
  res <- call_ftruncate (sub64 (add64 ca newLength) (Arena.length last)) ;;
  if res =? -1 then throw (HttpReturnException 500 "ftruncate failed")
  else
    newAddr <- call_mremap (Arena.addr last) (Arena.length last) newLength ;;
    if negb (newAddr =? Arena.addr last) then
      (* undo the expansion *)
      res <- call_ftruncate ca ;;
      if res =? -1 then throw (HttpReturnException 500 "Ftruncate failed")
      else verifyLength ;; ret false
    else
      modify (set_currentlyAllocated
                (add64 ca (sub64 newLength (Arena.length last)))) ;;
      set_back (Arena.set_length last newLength) ;;
      verifyLength ;;
      ret true.

(** [arenas.back().allocate(bytesRequired, alignment)]. *)
Definition back_allocate (bytesRequired alignment : Z) : M Itl Z :=
  last <- back ;;
  if alignment =? 0 then undefined
  else
    let '(p, last') := Arena.allocate bytesRequired alignment last in
    set_back last' ;; ret p.

(** The retry loop of [allocateWritableImpl]; [fuel] bounds the number of
    iterations. *)
Fixpoint allocateLoop (fuel : nat) (bytesRequired alignment : Z)
    : M Itl Z :=
  match fuel with
  | O => fun s => (OutOfFuel, s)
  | S fuel' =>
      allocated <- back_allocate bytesRequired alignment ;;
      if allocated =? 0 then
        expanded <- expandLastArena (add64 bytesRequired alignment) ;;
        (if expanded : bool then ret tt
         else createNewArena (add64 bytesRequired alignment)) ;;
        allocateLoop fuel' bytesRequired alignment
      else ret allocated
  end.

(** [allocateWritableImpl(bytesRequired, alignment)]. *)
Definition allocateWritableImpl (fuel : nat) (bytesRequired alignment : Z)
    : M Itl shared_ptr :=
  if bytesRequired =? 0 then ret null_shared_ptr
  else
    empty <- gets (fun s => match arenas s with [] => true | _ => false end) ;;
    (if empty : bool then createNewArena (add64 bytesRequired alignment)
     else ret tt) ;;
    allocated <- allocateLoop fuel bytesRequired alignment ;;
    if negb (allocated mod alignment =? 0) then
      throw (AssertionFailure "((size_t)allocated) % alignment == 0")
    else ret {| get := allocated; deleter := Some NoopDeleter |}.

(** [FileSerializer::allocateWritable(bytesRequired, alignment)].  The
    mutex taken around [allocateWritableImpl] has no counterpart in this
    sequential model. *)
Definition allocateWritable (fuel : nat) (bytesRequired alignment : Z)
    : M Itl MutableMemoryRegion.t :=
  handle <- allocateWritableImpl fuel bytesRequired alignment ;;
  let mem := get handle in
  ret {| MutableMemoryRegion.handle := handle;
         MutableMemoryRegion.data := mem;
         MutableMemoryRegion.length := bytesRequired;
         MutableMemoryRegion.owner := OwnerFileSerializer |}.

(** [Itl::commit()]. *)
Definition commit : M Itl unit :=
  empty <- gets (fun s => match arenas s with [] => true | _ => false end) ;;
  if empty : bool then ret tt
  else
    last <- back ;;
    let realLength := add64 (Arena.startOffset last) (Arena.currentOffset last) in
    res <- call_ftruncate realLength ;;
    if res =? -1 then throw (HttpReturnException 500 "ftruncate failed")
    else ret tt.

End WithSys.

(** [FileSerializer::freeze]. *)
Definition freeze (region : MutableMemoryRegion.t) : FrozenMemoryRegion.t :=
  {| FrozenMemoryRegion.data := MutableMemoryRegion.data region;
     FrozenMemoryRegion.length := MutableMemoryRegion.length region;
     FrozenMemoryRegion.handle := MutableMemoryRegion.handle region |}.

End FileSerializer.

(** [MutableMemoryRegion::freeze()]: the call goes to the owner.  All three
    serializers build the frozen region from the handle, the pointer and the
    length of the writable one; [EntrySerializer] moreover keeps a copy (see
    [entry_freeze] below). *)
Definition MutableMemoryRegion_freeze (region : MutableMemoryRegion.t)
    : FrozenMemoryRegion.t :=
  match MutableMemoryRegion.owner region with
  | OwnerMemorySerializer => MemorySerializer.freeze region
  | OwnerFileSerializer => FileSerializer.freeze region
  | OwnerEntrySerializer => MemorySerializer.freeze region
  end.

(* ================================================================= *)
(** ** Paths *)

(** A [PathElement] is a piece of text and a [Path] a sequence of them;
    [Path + PathElement] appends.  Rendering and parsing of paths live in
    [types/path.cc] and are not part of this development: container entries
    are recorded under their [Path]. *)
Definition PathElement : Type := string.
Definition Path : Type := list PathElement.

Definition path_append (p : Path) (e : PathElement) : Path := p ++ [e].

(* ================================================================= *)
(** ** StructuredSerializer and ZipStructuredSerializer *)

Module ZipStructuredSerializer.

(** [Itl] with its two implementations. *)
Inductive Itl : Type :=
| BaseItl
| RelativeItl (parent : Itl) (relativePath : PathElement).

(** [Itl::path()]. *)
Fixpoint path (itl : Itl) : Path :=
  match itl with
  | BaseItl => []
  | RelativeItl parent relativePath => path_append (path parent) relativePath
  end.

(** What [writeEntry] hands to libarchive for one entry. *)
Record ArchiveEntry : Type := {
  pathname : Path;
  size : Z;
  perm : Z;
  payload : list Byte.byte
}.

(** The world a zip serializer acts on: the clock of the oracles, the
    memory, and the entries written to the archive so far, oldest first. *)
Record World : Type := {
  now : nat;
  memory : Memory;
  archive : list ArchiveEntry
}.

Definition tick (w : World) : World :=
  {| now := S (now w); memory := memory w; archive := archive w |}.

Definition set_memory (m : Memory) (w : World) : World :=
  {| now := now w; memory := m; archive := archive w |}.

Definition add_entry (e : ArchiveEntry) (w : World) : World :=
  {| now := now w; memory := memory w; archive := archive w ++ [e] |}.

(** [EntrySerializer]: a [MemorySerializer] that remembers the last region
    frozen and writes it to the archive when it is destroyed. *)
Record EntrySerializer : Type := {
  itl : Itl;
  entryName : PathElement;
  frozen : FrozenMemoryRegion.t
}.

Section WithSys.

Variable sys : Sys.

(** [BaseItl::writeEntry(name, region)]. *)
Definition writeEntry (name : Path) (region : FrozenMemoryRegion.t)
    : M World unit :=
  fun w =>
    let res := archive_write_header sys (now w) in
    let w := tick w in
    if negb (res =? 0) then
      (Throw (HttpReturnException 500 "Error writing zip file"), w)
    else
      let written :=
        archive_write_data sys (now w) (FrozenMemoryRegion.length region) in
      let w := tick w in
      if negb (written =? FrozenMemoryRegion.length region) then
        (Throw (HttpReturnException 500 "Not all data written"), w)
      else
        (Ok tt,
         add_entry
           {| pathname := name;
              size := FrozenMemoryRegion.length region;
              perm := 288 (* 0440 *);
              payload := FrozenMemoryRegion.bytes (memory w) region |} w).

(** [newEntry(name)]. *)
Definition newEntry (this : Itl) (name : PathElement) : EntrySerializer :=
  {| itl := this; entryName := name; frozen := FrozenMemoryRegion.empty |}.

(** [allocateWritable] inherited from [MemorySerializer]. *)
Definition entry_allocateWritable (bytesRequired alignment : Z)
    : M World MutableMemoryRegion.t :=
  fun w =>
    (MemorySerializer.allocateWritable sys (now w) OwnerEntrySerializer
       bytesRequired alignment,
     tick w).

(** [EntrySerializer::freeze(region)]. *)
Definition entry_freeze (entry : EntrySerializer)
    (region : MutableMemoryRegion.t) : FrozenMemoryRegion.t * EntrySerializer :=
  let f := MemorySerializer.freeze region in
  (f, {| itl := itl entry; entryName := entryName entry; frozen := f |}).

(** The destructor of [EntrySerializer].  A destructor is [noexcept]: an
    exception that [writeEntry] throws inside it ends the process. *)
Definition entry_destroy (entry : EntrySerializer) : M World unit :=
  fun w =>
    match writeEntry (path_append (path (itl entry)) (entryName entry))
                     (frozen entry) w with
    | (Throw _, w') => (Terminated, w')
    | other => other
    end.

(** Allocate, copy [src] into the region and freeze it on [entry]: the
    common body of [MappedSerializer::copy] and of [newObject]. *)
Definition entry_store (entry : EntrySerializer) (src : list Byte.byte)
    : M World EntrySerializer :=
  serializeTo <-
    entry_allocateWritable (Z.of_nat (List.length src)) 1 ;;
  modify (fun w =>
            set_memory
              (memcpy (memory w) (MutableMemoryRegion.data serializeTo) src)
              w) ;;
  ret (snd (entry_freeze entry serializeTo)).

(** Run [body] on a freshly made entry and destroy the entry when the
    scope is left, also when [body] throws: the last reference to the entry
    goes away with the local [std::shared_ptr], which runs the destructor.
    When the destructor cannot write the entry the process is terminated,
    whether [body] had thrown or not. *)
Definition with_entry (entry : EntrySerializer)
    (body : M World EntrySerializer) : M World unit :=
  fun w =>
    match body w with
    | (Ok entry', w') => entry_destroy entry' w'
    | (Throw e, w') =>
        match entry_destroy entry w' with
        | (Ok _, w'') => (Throw e, w'')
        | (o, w'') => (o, w'')
        end
    | (Undefined, w') => (Undefined, w')
    | (OutOfFuel, w') => (OutOfFuel, w')
    | (Terminated, w') => (Terminated, w')
    end.

(** [StructuredSerializer::addRegion(region, name)]. *)
Definition addRegion (this : Itl) (region : FrozenMemoryRegion.t)
    (name : PathElement) : M World unit :=
  let entry := newEntry this name in
  with_entry entry
    (src <- gets (fun w => FrozenMemoryRegion.bytes (memory w) region) ;;
     entry_store entry src).

(** [StructuredSerializer::newObject(name, val, desc)]; [printJson] is
    [desc.printJson] followed by taking the raw bytes of the text. *)
Definition newObject {V : Type} (printJson : V -> list Byte.byte)
    (this : Itl) (name : PathElement) (val : V) : M World unit :=
  let printed := printJson val in
  let entry := newEntry this "md"%string in
  with_entry entry (entry_store entry printed).

End WithSys.

End ZipStructuredSerializer.

(* ================================================================= *)
(** ** StructuredReconstituter *)

(** The abstract reader: the two virtual lookups.  A sub-structure is
    returned through a [std::shared_ptr], which [option] models where the
    pointer may be null. *)
Class StructuredReconstituter (R : Type) : Type := {
  getStructure : R -> PathElement -> Outcome R;
  getRegion : R -> PathElement -> Outcome FrozenMemoryRegion.t
}.

Section Recursive.

Context {R : Type} `{StructuredReconstituter R}.

(** The loop of [getStructureRecursive]: [current] is the node the next
    lookup is made on, [result] the pointer returned at the end. *)
Fixpoint getStructureRecursive_loop (current : R) (result : option R)
    (name : Path) : Outcome (option R) :=
  match name with
  | [] => Ok result
  | el :: rest =>
      match getStructure current el with
      | Ok r => getStructureRecursive_loop r (Some r) rest
      | Throw e => Throw e
      | Undefined => Undefined
      | OutOfFuel => OutOfFuel
      | Terminated => Terminated
      end
  end.

(** [StructuredReconstituter::getStructureRecursive(name)]. *)
Definition getStructureRecursive (this : R) (name : Path)
    : Outcome (option R) :=
  getStructureRecursive_loop this None name.

(** [StructuredReconstituter::getRegionRecursive(name)]. *)
Fixpoint getRegionRecursive (this : R) (name : Path)
    : Outcome FrozenMemoryRegion.t :=
  match name with
  | [] => Throw (AssertionFailure "!name.empty()")
  | [el] => getRegion this el
  | el :: rest =>
      match getStructure this el with
      | Ok r => getRegionRecursive r rest
      | Throw e => Throw e
      | Undefined => Undefined
      | OutOfFuel => OutOfFuel
      | Terminated => Terminated
      end
  end.

End Recursive.

(* ================================================================= *)
(** ** ZipStructuredReconstituter *)

Module ZipStructuredReconstituter.

(** [Itl::Entry].  The [std::map] of children is an association list with
    one binding per name; the order of its keys, which only
    [getDirectory] exposes, is the order of first insertion here. *)
#[warnings="-register-all"]
Inductive Entry : Type :=
| mkEntry (path : Path) (children : list (PathElement * Entry))
          (region : FrozenMemoryRegion.t).

Definition path (e : Entry) : Path :=
  match e with mkEntry p _ _ => p end.
Definition children (e : Entry) : list (PathElement * Entry) :=
  match e with mkEntry _ c _ => c end.
Definition region (e : Entry) : FrozenMemoryRegion.t :=
  match e with mkEntry _ _ r => r end.

(** A default constructed [Entry]. *)
Definition empty_entry : Entry := mkEntry [] [] FrozenMemoryRegion.empty.

(** [children.find(name)]. *)
Fixpoint find (name : PathElement) (l : list (PathElement * Entry))
    : option Entry :=
  match l with
  | [] => None
  | (k, v) :: rest => if String.eqb k name then Some v else find name rest
  end.

(** Assignment to [children[name]]. *)
Fixpoint assign (name : PathElement) (v : Entry)
    (l : list (PathElement * Entry)) : list (PathElement * Entry) :=
  match l with
  | [] => [(name, v)]
  | (k, u) :: rest =>
      if String.eqb k name then (k, v) :: rest
      else (k, u) :: assign name v rest
  end.

(** The insertion of one archive member into the index: walk [rest] down
    from [current] with [operator[]], which creates missing nodes, then set
    the path and the region of the node reached. *)
Fixpoint insert (rest full : Path) (r : FrozenMemoryRegion.t)
    (current : Entry) : Entry :=
  match rest with
  | [] => mkEntry full (children current) r
  | e :: rest' =>
      let child :=
        match find e (children current) with
        | Some c => c
        | None => empty_entry
        end in
      mkEntry (path current)
              (assign e (insert rest' full r child) (children current))
              (region current)
  end.

(** One header of the archive as libarchive reports it: the parsed
    pathname, the pointer to the first data block and its length. *)
Record Header : Type := {
  header_path : Path;
  currentBlock : Z;
  block_length : Z
}.

(** The loop of the constructor [Itl(FrozenMemoryRegion)] over the headers
    of the archive, for an archive that libarchive opens and reads to its
    end and whose pathnames [Path::parse] accepts.  The exceptions of the
    constructor for an archive that libarchive rejects, or for a pathname
    that does not parse, are raised outside of this loop and have no
    counterpart here. *)
Fixpoint index (container : FrozenMemoryRegion.t) (headers : list Header)
    (rootStorage : Entry) : Outcome Entry :=
  match headers with
  | [] => Ok rootStorage
  | h :: rest =>
      let offset := currentBlock h - FrozenMemoryRegion.data container in
      let checked :=
        if (0 <=? offset) && (offset <=? FrozenMemoryRegion.length container)
        then Ok offset
        else if block_length h =? 0 then Ok 0
        else Throw (AssertionFailure "false") in
      match checked with
      | Ok offset =>
          match FrozenMemoryRegion.range container offset
                  (add64 offset (block_length h)) with
          | Ok r =>
              index container rest
                (insert (header_path h) (header_path h) r rootStorage)
          | Throw e => Throw e
          | Undefined => Undefined
          | OutOfFuel => OutOfFuel
          | Terminated => Terminated
          end
      | Throw e => Throw e
      | Undefined => Undefined
      | OutOfFuel => OutOfFuel
      | Terminated => Terminated
      end
  end.

(** [ZipStructuredReconstituter::getStructure(name)] at the node [root]. *)
Definition zip_getStructure (root : Entry) (name : PathElement)
    : Outcome Entry :=
  match find name (children root) with
  | None => Throw (HttpReturnException 400 "Child structure not found at")
  | Some e => Ok e
  end.

(** [ZipStructuredReconstituter::getRegion(name)] at the node [root]. *)
Definition zip_getRegion (root : Entry) (name : PathElement)
    : Outcome FrozenMemoryRegion.t :=
  match find name (children root) with
  | None => Throw (HttpReturnException 400 "Child structure not found")
  | Some e => Ok (region e)
  end.

(** One element of the result of [getDirectory]: the name and whether the
    block getter and the structure getter are set. *)
Record DirectoryEntry : Type := {
  name : PathElement;
  getBlock : option FrozenMemoryRegion.t;
  hasStructure : bool
}.

(** [ZipStructuredReconstituter::getDirectory()]. *)
Definition getDirectory (root : Entry) : list DirectoryEntry :=
  map (fun ch : PathElement * Entry =>
         {| name := fst ch;
            getBlock :=
              if FrozenMemoryRegion.data (region (snd ch)) =? 0 then None
              else Some (region (snd ch));
            hasStructure :=
              match children (snd ch) with [] => false | _ => true end |})
      (children root).

(** [name] is a leaf at [root]: it is bound there and carries a byte
    payload, the test [getDirectory] makes before it sets the block
    getter. *)
Definition is_leaf (root : Entry) (name : PathElement) : bool :=
  match find name (children root) with
  | None => false
  | Some e => negb (FrozenMemoryRegion.data (region e) =? 0)
  end.

#[global] Instance zip_reconstituter : StructuredReconstituter Entry := {
  getStructure := zip_getStructure;
  getRegion := zip_getRegion
}.

End ZipStructuredReconstituter.

(* ================================================================= *)
(** ** ReconstituteStreamHandler *)

Inductive seekdir : Type :=
| seek_beg
| seek_cur
| seek_end
| seek_invalid (value : Z).

Module ReconstituteStreamHandler.

(** The get area of the [std::streambuf] base ([eback], [gptr], [egptr])
    and the members of the handler. *)
Record t : Type := make {
  eback : Z;
  gptr : Z;
  egptr : Z;
  start : Z;
  end_ : Z;
  region : FrozenMemoryRegion.t
}.

(** [setg(gbeg, gcurr, gend)]. *)
Definition setg (gbeg gcurr gend : Z) (h : t) : t :=
  {| eback := gbeg; gptr := gcurr; egptr := gend;
     start := start h; end_ := end_ h; region := region h |}.

(** [gbump(n)], whose parameter is an [int]. *)
Definition gbump (n : Z) (h : t) : t :=
  {| eback := eback h; gptr := gptr h + to_int n; egptr := egptr h;
     start := start h; end_ := end_ h; region := region h |}.

(** The constructor from a [FrozenMemoryRegion]. *)
Definition create (r : FrozenMemoryRegion.t) : t :=
  let s := FrozenMemoryRegion.data r in
  let e := FrozenMemoryRegion.data r + FrozenMemoryRegion.length r in
  {| eback := s; gptr := s; egptr := e; start := s; end_ := e; region := r |}.

(** [seekoff(off, dir, which)]: the new handler and the position
    returned. *)
Definition seekoff (off : Z) (dir : seekdir) (h : t) : Outcome (Z * t) :=
  match dir with
  | seek_cur => let h' := gbump off h in Ok (gptr h' - eback h', h')
  | seek_end =>
      let h' := setg (start h) (end_ h + off) (end_ h) h in
      Ok (gptr h' - eback h', h')
  | seek_beg =>
      let h' := setg (start h) (start h + off) (end_ h) h in
      Ok (gptr h' - eback h', h')
  | seek_invalid _ => Throw (StdException "Streambuf invalid seakoff dir")
  end.

(** [seekpos(pos, mode)]. *)
Definition seekpos (pos : Z) (h : t) : Outcome (Z * t) :=
  seekoff (pos - 0) seek_beg h.

(** The read position, as [seekoff] reports it. *)
Definition position (h : t) : Z := gptr h - eback h.

(** The position a clamping seek would reach from [target] in a source of
    length [L]. *)
Definition clamp (L target : Z) : Z := Z.max 0 (Z.min L target).

(** The handler is laid over a source of [L] bytes: what the constructor
    establishes and every seek keeps. *)
Definition over_length (L : Z) (h : t) : Prop :=
  eback h = start h /\ end_ h = start h + L.

End ReconstituteStreamHandler.

(* ================================================================= *)
(** ** Assumptions on the environment and on the state *)

(** A system whose calls on the file succeed: pages of a sane size,
    [ftruncate] and [fstat] answer [0], and [mmap] answers a non-null,
    page-aligned address.  Nothing is assumed of [mremap]. *)
Definition cooperative (sys : Sys) : Prop :=
  0 < page_size sys <= 2 ^ 32 /\
  (forall t len, ftruncate sys t len = 0) /\
  (forall t, fstat sys t = 0) /\
  (forall t len offset,
     0 < mmap sys t len offset < MAP_FAILED /\
     mmap sys t len offset mod page_size sys = 0).






(** The length [createNewArena] gives a new arena when the serializer has
    [ca] bytes allocated. *)
Definition new_arena_length (sys : Sys) (ca bytesRequired : Z) : Z :=
  mul64
    (Z.max
       (Z.max (sub64 (add64 bytesRequired (page_size sys)) 1 / page_size sys) 1024)
       (sub64 (add64 ca (page_size sys)) 1 / page_size sys / 8))
    (page_size sys).

(** The padding [Arena::allocate] inserts in front of a block when the bump
    offset is [offset]. *)
Definition padding (offset alignment : Z) : Z :=
  if 0 <? offset mod alignment then alignment - offset mod alignment else 0.

(** The growth of the last arena as the specification words it: the
    requested size rounded up to whole pages, at least 10000 pages, in
    bytes. *)
Definition expansion_per_spec (sys : Sys) (bytesRequired : Z) : Z :=
  Z.max ((bytesRequired + page_size sys - 1) / page_size sys * page_size sys)
        (10000 * page_size sys).

(** The sum of the sizes of a sequence of requests [(bytes, alignment)]. *)
Definition bytes_requested (requests : list (Z * Z)) : Z :=
  fold_right (fun r acc => fst r + acc) 0 requests.

(** The sum of the current offsets of the arenas: the bytes consumed by
    bump allocation, padding included, as the arenas record them (an arena
    that the vector moved records 0). *)
Definition bytes_consumed (s : FileSerializer.Itl) : Z :=
  fold_right (fun a acc => Arena.currentOffset a + acc) 0
             (FileSerializer.arenas s).

(** Serve the requests one after the other on the file serializer. *)
Fixpoint allocate_all (sys : Sys) (fuel : nat) (requests : list (Z * Z))
    : M FileSerializer.Itl unit :=
  match requests with
  | [] => ret tt
  | (bytes, alignment) :: rest =>
      FileSerializer.allocateWritable sys fuel bytes alignment ;;
      allocate_all sys fuel rest
  end.

(* ================================================================= *)
(** ** Relations between states of the file serializer *)

(** Every arena of [ars] is still there in [ars'], at the same index, with
    the same address and start offset; unless it was the last one of [ars]
    it also has the same length, and its current offset is what it was or
    has been set back to 0 (by a move to new storage). *)
Definition arenas_kept (ars ars' : list Arena.t) : Prop :=
  (List.length ars <= List.length ars')%nat /\
  forall i a,
    nth_error ars i = Some a ->
    exists a',
      nth_error ars' i = Some a' /\
      Arena.addr a' = Arena.addr a /\
      Arena.startOffset a' = Arena.startOffset a /\
      ((S i < List.length ars)%nat ->
       Arena.length a' = Arena.length a /\
       (Arena.currentOffset a' = Arena.currentOffset a \/
        Arena.currentOffset a' = 0)).

(** The arenas lie one after the other in the file, the first at [start]
    (offsets are compared as [size_t] values). *)
Fixpoint arenas_tile (start : Z) (ars : list Arena.t) : Prop :=
  match ars with
  | [] => True
  | a :: rest =>
      to_size_t (Arena.startOffset a) = to_size_t start /\
      arenas_tile (start + Arena.length a) rest
  end.

Definition total_length (ars : list Arena.t) : Z :=
  fold_right (fun a acc => Arena.length a + acc) 0 ars.

(** The arenas tile the file from offset 0 and [currentlyAllocated] is the
    sum of their lengths. *)
Definition tiled (s : FileSerializer.Itl) : Prop :=
  arenas_tile 0 (FileSerializer.arenas s) /\
  to_size_t (FileSerializer.currentlyAllocated s)
  = to_size_t (total_length (FileSerializer.arenas s)).

(** What one of the three state-changing steps of the allocation code does
    to the arenas and to [currentlyAllocated]: nothing, a new arena at the
    end of the file (with the arenas before it moved to new storage if
    [moved]), a longer last arena, or a bump in the last arena. *)
Inductive arena_step (s s' : FileSerializer.Itl) : Prop :=
| step_same :
    FileSerializer.arenas s' = FileSerializer.arenas s ->
    FileSerializer.currentlyAllocated s' = FileSerializer.currentlyAllocated s ->
    arena_step s s'
| step_new (moved : bool) (addr len : Z) :
    FileSerializer.arenas s' =
    (if moved then map Arena.move (FileSerializer.arenas s)
     else FileSerializer.arenas s)
    ++ [Arena.create addr (FileSerializer.currentlyAllocated s) len] ->
    FileSerializer.currentlyAllocated s'
    = add64 (FileSerializer.currentlyAllocated s) len ->
    arena_step s s'
| step_grow (l : list Arena.t) (last : Arena.t) (newLength : Z) :
    FileSerializer.arenas s = l ++ [last] ->
    FileSerializer.arenas s' = l ++ [Arena.set_length last newLength] ->
    FileSerializer.currentlyAllocated s'
    = add64 (FileSerializer.currentlyAllocated s)
            (sub64 newLength (Arena.length last)) ->
    arena_step s s'
| step_bump (l : list Arena.t) (last : Arena.t) (offset : Z) :
    FileSerializer.arenas s = l ++ [last] ->
    FileSerializer.arenas s' =
    l ++ [Arena.make (Arena.addr last) (Arena.startOffset last)
            (Arena.length last) offset] ->
    FileSerializer.currentlyAllocated s' = FileSerializer.currentlyAllocated s ->
    arena_step s s'.

(** A computation all of whose runs, whatever their outcome, relate the
    state before to the state after by [R]. *)
Definition respects {A : Type}
    (R : FileSerializer.Itl -> FileSerializer.Itl -> Prop)
    (c : M FileSerializer.Itl A) : Prop :=
  forall s o s', c s = (o, s') -> R s s'.

(* ================================================================= *)
(** ** Predicates on the zip index *)

(** The slice of the container that the index stores for one header: the
    computation in the body of the loop of [index]. *)
Definition member_region (container : FrozenMemoryRegion.t)
    (h : ZipStructuredReconstituter.Header) : Outcome FrozenMemoryRegion.t :=
  let offset :=
    ZipStructuredReconstituter.currentBlock h - FrozenMemoryRegion.data container in
  if (0 <=? offset) && (offset <=? FrozenMemoryRegion.length container) then
    FrozenMemoryRegion.range container offset
      (add64 offset (ZipStructuredReconstituter.block_length h))
  else if ZipStructuredReconstituter.block_length h =? 0 then
    FrozenMemoryRegion.range container 0
      (add64 0 (ZipStructuredReconstituter.block_length h))
  else Throw (AssertionFailure "false").

(** The member is empty or its block lies inside the container. *)
Definition member_ok (container : FrozenMemoryRegion.t)
    (h : ZipStructuredReconstituter.Header) : Prop :=
  ZipStructuredReconstituter.block_length h = 0 \/
  (FrozenMemoryRegion.data container <= ZipStructuredReconstituter.currentBlock h /\
   ZipStructuredReconstituter.currentBlock h
   + ZipStructuredReconstituter.block_length h
   <= FrozenMemoryRegion.data container + FrozenMemoryRegion.length container).

(** [r] is the default region or a span of [container] that carries the
    handle of [container]. *)
Definition default_or_inside (container r : FrozenMemoryRegion.t) : Prop :=
  r = FrozenMemoryRegion.empty \/
  (FrozenMemoryRegion.handle r = FrozenMemoryRegion.handle container /\
   0 <= FrozenMemoryRegion.length r /\
   FrozenMemoryRegion.data container <= FrozenMemoryRegion.data r /\
   FrozenMemoryRegion.data r + FrozenMemoryRegion.length r
   <= FrozenMemoryRegion.data container + FrozenMemoryRegion.length container).

(** [P] holds of the region of every node of the tree. *)
Fixpoint entry_all (P : FrozenMemoryRegion.t -> Prop)
    (e : ZipStructuredReconstituter.Entry) : Prop :=
  match e with
  | ZipStructuredReconstituter.mkEntry _ ch r =>
      P r /\
      (fix children_all (l : list (PathElement * ZipStructuredReconstituter.Entry))
         : Prop :=
         match l with
         | [] => True
         | (_, c) :: rest => entry_all P c /\ children_all rest
         end) ch
  end.

(* ================================================================= *)
(** ** Sub-structures of the zip serializer *)

(** [ZipStructuredSerializer::newStructure(name)]: the new serializer holds
    a [RelativeItl] whose parent is the [Itl] of this one. *)
Definition zip_newStructure (this : ZipStructuredSerializer.Itl)
    (name : PathElement) : ZipStructuredSerializer.Itl :=
  ZipStructuredSerializer.RelativeItl this name.

(** The serializer reached from the root by one [newStructure] per name. *)
Definition zip_structure_at (names : Path) : ZipStructuredSerializer.Itl :=
  fold_left zip_newStructure names ZipStructuredSerializer.BaseItl.

(* ================================================================= *)
(** ** mapFile *)

(** The two parts of a [Url] that [mapFile] looks at. *)
Record Url : Type := {
  scheme : string;
  url_path : string
}.

(** The calls [mapFile] makes: [open] answers a descriptor or [-1],
    [fstat] its result and the size of the file, [mmap], given the length,
    the descriptor and the offset, an address or [MAP_FAILED]. *)
Record FileSystem : Type := {
  open_readonly : string -> Z;
  fstat_size : Z -> Z * Z;
  mmap_readonly : Z -> Z -> Z -> Z
}.

(** The mask [~(page_size - 1)] as a [size_t]. *)
Definition page_mask (ps : Z) : Z := to_size_t (Z.lnot (sub64 ps 1)).

(** [mapFile(filename, startOffset, length)] with pages of [ps] bytes;
    [length] is signed and [-1] asks for the whole file. *)
Definition mapFile (ps : Z) (fsys : FileSystem) (filename : Url)
    (startOffset length : Z) : Outcome FrozenMemoryRegion.t :=
  if negb (String.eqb (scheme filename) "file") then
    Throw (HttpReturnException 500
             "only file:// entities can be memory mapped (for now)")
  else
    let fd := open_readonly fsys (url_path filename) in
    if fd =? -1 then Throw (HttpReturnException 400 "Couldn't open mmap file")
    else
      let sized :=
        if length =? -1 then
          let '(res, st_size) := fstat_size fsys fd in
          if res =? -1 then
            Throw (HttpReturnException 400 "Couldn't stat mmap file")
          else Ok st_size
        else Ok length in
      match sized with
      | Ok length =>
          let mapOffset := Z.land startOffset (page_mask ps) in
          let mapLength :=
            Z.land (sub64 (add64 (sub64 length mapOffset) ps) 1) (page_mask ps) in
          let addr := mmap_readonly fsys mapLength fd mapOffset in
          if addr =? MAP_FAILED then
            Throw (HttpReturnException 400 "Failed to open memory map file")
          else
            Ok {| FrozenMemoryRegion.data := addr + startOffset mod ps;
                  FrozenMemoryRegion.length := to_size_t length;
                  FrozenMemoryRegion.handle :=
                    {| get := addr;
                       deleter := Some (MunmapDeleter mapLength) |} |}
      | Throw e => Throw e
      | Undefined => Undefined
      | OutOfFuel => OutOfFuel
      | Terminated => Terminated
      end.

(* ================================================================= *)
(** ** MappedSerializer::copy on the heap *)

(** The world of a heap-backed serializer: the clock of the allocator and
    the memory. *)
Record HeapWorld : Type := {
  heap_now : nat;
  heap_memory : Memory
}.

(** [MappedSerializer::copy(region)] on a [MemorySerializer]: allocate at
    alignment 1, [memcpy] the bytes of the region, freeze. *)
Definition MemorySerializer_copy (sys : Sys) (region : FrozenMemoryRegion.t)
    : M HeapWorld FrozenMemoryRegion.t :=
  fun w =>
    match MemorySerializer.allocateWritable sys (heap_now w)
            OwnerMemorySerializer (FrozenMemoryRegion.length region) 1 with
    | Ok serializeTo =>
        (Ok (MutableMemoryRegion_freeze serializeTo),
         {| heap_now := S (heap_now w);
            heap_memory :=
              memcpy (heap_memory w) (MutableMemoryRegion.data serializeTo)
                     (FrozenMemoryRegion.bytes (heap_memory w) region) |})
    | Throw e =>
        (Throw e, {| heap_now := S (heap_now w); heap_memory := heap_memory w |})
    | Undefined => (Undefined, w)
    | OutOfFuel => (OutOfFuel, w)
    | Terminated => (Terminated, w)
    end.

(* ================================================================= *)
(** ** Sequences of seeks *)

(** Seek after seek on the same handler, until one throws. *)
Fixpoint seek_all (requests : list (Z * seekdir))
    (h : ReconstituteStreamHandler.t) : Outcome ReconstituteStreamHandler.t :=
  match requests with
  | [] => Ok h
  | (off, dir) :: rest =>
      match ReconstituteStreamHandler.seekoff off dir h with
      | Ok (_, h') => seek_all rest h'
      | Throw e => Throw e
      | Undefined => Undefined
      | OutOfFuel => OutOfFuel
      | Terminated => Terminated
      end
  end.

(** The position one seek moves to from the position [pos] in a source of
    [L] bytes. *)
Definition seek_target (L pos : Z) (request : Z * seekdir) : Z :=
  match snd request with
  | seek_beg => fst request
  | seek_end => L + fst request
  | seek_cur => pos + to_int (fst request)
  | seek_invalid _ => pos
  end.

Definition valid_dir (dir : seekdir) : bool :=
  match dir with
  | seek_invalid _ => false
  | _ => true
  end.

(* ================================================================= *)
(** ** Concrete environments *)

(** The growth policy of a vector that doubles its capacity (libstdc++,
    libc++): grown one element at a time, it is full when its size is 0 or
    a power of two. *)
Definition doubling_vector_full (n : nat) : bool :=
  Nat.eqb n 0 || Nat.eqb n (2 ^ Nat.log2 n).

(** A cooperative system with 4 KiB pages: truncation and mapping succeed,
    every mapping is placed at a page-aligned address that grows with the
    file offset, 4096 bytes of address space for each byte of the file, so
    that the mappings of two arenas of a file below 1 TiB never overlap;
    [mremap] grows in place exactly when [grow_in_place] says so at that
    time; the allocator returns a fresh non-null block aligned as asked
    (also for a request of zero bytes, as glibc does); libarchive writes
    everything; the vector of arenas doubles its capacity. *)
Definition cooperative_sys (grow_in_place : nat -> bool) : Sys :=
  {| page_size := 4096;
     ftruncate := fun _ _ => 0;
     fstat := fun _ => 0;
     mmap := fun _ _ offset => 2 ^ 40 + 4096 * (offset mod 2 ^ 40);
     mremap := fun t old_address _ _ =>
                 if grow_in_place t then old_address else MAP_FAILED;
     posix_memalign := fun t alignment _ =>
                         (0, alignment * (4096 + Z.of_nat t));
     archive_write_header := fun _ => 0;
     archive_write_data := fun _ n => n;
     vector_reallocates := doubling_vector_full |}.


(** A container of 200 bytes mapped at 4096 and the headers of its three
    members, as libarchive reports them. *)
Definition scenario_container : FrozenMemoryRegion.t :=
  FrozenMemoryRegion.make 4096 200 null_shared_ptr.

Definition scenario_headers : list ZipStructuredReconstituter.Header :=
  [ {| ZipStructuredReconstituter.header_path := ["a"]%string;
       ZipStructuredReconstituter.currentBlock := 4096 + 31;
       ZipStructuredReconstituter.block_length := 5 |};
    {| ZipStructuredReconstituter.header_path := ["b"; "c"]%string;
       ZipStructuredReconstituter.currentBlock := 4096 + 69;
       ZipStructuredReconstituter.block_length := 5 |};
    {| ZipStructuredReconstituter.header_path := ["b"; "d"]%string;
       ZipStructuredReconstituter.currentBlock := 0;
       ZipStructuredReconstituter.block_length := 0 |} ].

(* ================================================================= *)
(** * Properties *)

(** ** Machine integers *)

Lemma to_size_t_small (z : Z) : 0 <= z < size_t_modulus -> to_size_t z = z.
Proof. intros Hz. unfold to_size_t. now apply Z.mod_small. Qed.

Lemma to_size_t_range (z : Z) : 0 <= to_size_t z < size_t_modulus.
Proof. unfold to_size_t, size_t_modulus. apply Z.mod_pos_bound. lia. Qed.

Lemma size_t_modulus_eq : size_t_modulus = 18446744073709551616.
Proof. reflexivity. Qed.

(** ** Memory *)

Lemma read_bytes_app (mem : Memory) (n m : nat) : forall p,
  read_bytes mem p (n + m) =
  read_bytes mem p n ++ read_bytes mem (p + Z.of_nat n) m.
Proof.
  induction n as [|n IH]; intros p.
  - simpl. now rewrite Z.add_0_r.
  - cbn [Nat.add read_bytes app]. rewrite IH. do 3 f_equal. lia.
Qed.

Lemma read_bytes_length (mem : Memory) (n : nat) : forall p,
  List.length (read_bytes mem p n) = n.
Proof. induction n as [|n IH]; intros p; simpl; [easy|now rewrite IH]. Qed.

Lemma memcpy_below (src : list Byte.byte) : forall mem dst p,
  p < dst -> memcpy mem dst src p = mem p.
Proof.
  induction src as [|b src IH]; intros mem dst p Hp; simpl; [easy|].
  rewrite IH by lia. destruct (Z.eqb_spec p dst); [lia|easy].
Qed.

Lemma read_bytes_memcpy (src : list Byte.byte) : forall mem dst,
  read_bytes (memcpy mem dst src) dst (List.length src) = src.
Proof.
  induction src as [|b src IH]; intros mem dst; simpl; [easy|].
  rewrite IH. rewrite memcpy_below by lia. now rewrite Z.eqb_refl.
Qed.

(** ** Slices of a frozen region *)

Lemma range_ok (r : FrozenMemoryRegion.t) (a b : Z) :
  0 <= a <= b -> b <= FrozenMemoryRegion.length r ->
  FrozenMemoryRegion.length r < size_t_modulus ->
  FrozenMemoryRegion.range r a b =
  Ok (FrozenMemoryRegion.make (FrozenMemoryRegion.data r + a) (b - a)
        (FrozenMemoryRegion.handle r)).
Proof.
  intros Hab Hb Hr. unfold FrozenMemoryRegion.range.
  destruct (Z.ltb_spec b a); [lia|].
  destruct (Z.ltb_spec (FrozenMemoryRegion.length r) b); [lia|].
  unfold sub64. rewrite to_size_t_small by lia. reflexivity.
Qed.

(** The bytes of a slice are the corresponding bytes of the region. *)
Lemma bytes_range (mem : Memory) (r r' : FrozenMemoryRegion.t) (a b : Z) :
  0 <= a <= b -> b <= FrozenMemoryRegion.length r ->
  FrozenMemoryRegion.length r < size_t_modulus ->
  FrozenMemoryRegion.range r a b = Ok r' ->
  FrozenMemoryRegion.bytes mem r' =
  firstn (Z.to_nat (b - a)) (skipn (Z.to_nat a) (FrozenMemoryRegion.bytes mem r)).
Proof.
  intros Hab Hb Hr Hrange. rewrite range_ok in Hrange by assumption.
  injection Hrange as <-. unfold FrozenMemoryRegion.bytes. cbn.
  replace (Z.to_nat (FrozenMemoryRegion.length r))
    with (Z.to_nat a + (Z.to_nat (b - a)
                        + Z.to_nat (FrozenMemoryRegion.length r - b)))%nat by lia.
  rewrite read_bytes_app.
  rewrite skipn_app, skipn_all2 by (rewrite read_bytes_length; lia).
  rewrite read_bytes_length, Nat.sub_diag. cbn [app skipn].
  rewrite read_bytes_app, firstn_app, read_bytes_length, Nat.sub_diag.
  cbn [firstn]. rewrite app_nil_r, firstn_all2 by (rewrite read_bytes_length; lia).
  f_equal. lia.
Qed.

(** C9: for a region [r] and bounds [0 <= a <= b <= r.length] and
    [0 <= c <= d <= b - a], the three slices [r.range(a,b)],
    [r.range(a,b).range(c,d)] and [r.range(a+c, a+d)] all exist, the last two
    denote the same byte sequence in every memory, and both carry the
    ownership handle of [r]. *)
Theorem range_composition (r : FrozenMemoryRegion.t) (a b c d : Z) :
  0 <= a <= b -> b <= FrozenMemoryRegion.length r ->
  FrozenMemoryRegion.length r < size_t_modulus ->
  0 <= c <= d -> d <= b - a ->
  exists r1 r2 r3,
    FrozenMemoryRegion.range r a b = Ok r1 /\
    FrozenMemoryRegion.range r1 c d = Ok r2 /\
    FrozenMemoryRegion.range r (a + c) (a + d) = Ok r3 /\
    (forall mem, FrozenMemoryRegion.bytes mem r2 = FrozenMemoryRegion.bytes mem r3) /\
    FrozenMemoryRegion.handle r2 = FrozenMemoryRegion.handle r /\
    FrozenMemoryRegion.handle r3 = FrozenMemoryRegion.handle r.
Proof.
  intros Hab Hb Hr Hcd Hd.
  eexists _, _, _. split; [apply range_ok; assumption|].
  split; [apply range_ok; cbn [FrozenMemoryRegion.length]; lia|].
  split; [apply range_ok; lia|].
  cbn [FrozenMemoryRegion.handle]. repeat split.
  intros mem. unfold FrozenMemoryRegion.bytes.
  cbn [FrozenMemoryRegion.length FrozenMemoryRegion.data].
  f_equal; [|f_equal]; lia.
Qed.

Lemma range_composition_witness :
  exists r1 r2 r3,
    FrozenMemoryRegion.range (FrozenMemoryRegion.make 4096 10 null_shared_ptr) 2 9 = Ok r1 /\
    FrozenMemoryRegion.range r1 1 4 = Ok r2 /\
    FrozenMemoryRegion.range (FrozenMemoryRegion.make 4096 10 null_shared_ptr) (2 + 1) (2 + 4) = Ok r3 /\
    (forall mem, FrozenMemoryRegion.bytes mem r2 = FrozenMemoryRegion.bytes mem r3) /\
    FrozenMemoryRegion.handle r2 = null_shared_ptr /\
    FrozenMemoryRegion.handle r3 = null_shared_ptr.
Proof.
  apply (range_composition (FrozenMemoryRegion.make 4096 10 null_shared_ptr) 2 9 1 4);
    cbn; unfold size_t_modulus; lia.
Defined.

(** ** Recursive lookups *)

(** C10: on every reconstituter, [getStructureRecursive] called with the
    empty path returns normally with a null pointer: neither the
    reconstituter itself nor an error. *)
Theorem getStructureRecursive_empty_path
    (R : Type) (I : StructuredReconstituter R) (this : R) :
  getStructureRecursive this [] = Ok None.
Proof. reflexivity. Qed.

(** On a non-empty path the result is never null. *)
Lemma getStructureRecursive_loop_some
    (R : Type) (I : StructuredReconstituter R) (name : Path) :
  forall (current : R) (result : option R) (res : option R),
    getStructureRecursive_loop current result name = Ok res ->
    name <> [] -> res <> None.
Proof.
  induction name as [|el rest IH]; intros current result res Hrun Hne.
  - contradiction.
  - cbn in Hrun. destruct (getStructure current el) as [r| | | |]; try discriminate.
    destruct rest as [|el' rest'].
    + cbn in Hrun. injection Hrun as <-. discriminate.
    + apply (IH r (Some r) res Hrun). discriminate.
Qed.

(** ** Lookups in the zip index *)

Lemma find_assign_same (n : PathElement) (v : ZipStructuredReconstituter.Entry)
    (l : list (PathElement * ZipStructuredReconstituter.Entry)) :
  ZipStructuredReconstituter.find n (ZipStructuredReconstituter.assign n v l)
  = Some v.
Proof.
  induction l as [|[k u] l IH]; cbn.
  - now rewrite String.eqb_refl.
  - destruct (String.eqb k n) eqn:E; cbn; rewrite E; [reflexivity|exact IH].
Qed.

Lemma find_assign_other (n m : PathElement)
    (v : ZipStructuredReconstituter.Entry)
    (l : list (PathElement * ZipStructuredReconstituter.Entry)) :
  n <> m ->
  ZipStructuredReconstituter.find m (ZipStructuredReconstituter.assign n v l)
  = ZipStructuredReconstituter.find m l.
Proof.
  intros Hne. induction l as [|[k u] l IH]; cbn.
  - destruct (String.eqb_spec n m); [contradiction|reflexivity].
  - destruct (String.eqb_spec k n) as [->|Hk]; cbn.
    + destruct (String.eqb_spec n m); [contradiction|reflexivity].
    + destruct (String.eqb k m); [reflexivity|exact IH].
Qed.

(** C7, as the code has it: at every node, [getRegion(n)] fails, with the
    status 400, exactly when [n] is not bound at the node; when [n] is bound
    it returns the region stored at that child, whether or not the child
    carries a payload.  In particular, after the index has created [n] only
    as an intermediate node on the way to a deeper member, [getRegion(n)]
    returns the default, null region and raises nothing. *)
Theorem getRegion_fails_iff_unbound
    (root : ZipStructuredReconstituter.Entry) (n : PathElement) :
  ((exists e, ZipStructuredReconstituter.zip_getRegion root n = Throw e) <->
   ZipStructuredReconstituter.find n (ZipStructuredReconstituter.children root)
   = None) /\
  (forall e, ZipStructuredReconstituter.zip_getRegion root n = Throw e ->
             exists msg, e = HttpReturnException 400 msg) /\
  (forall child,
     ZipStructuredReconstituter.find n (ZipStructuredReconstituter.children root)
     = Some child ->
     ZipStructuredReconstituter.zip_getRegion root n
     = Ok (ZipStructuredReconstituter.region child)) /\
  (forall (m : PathElement) (rest full : Path) (r : FrozenMemoryRegion.t),
     ZipStructuredReconstituter.find n (ZipStructuredReconstituter.children root)
     = None ->
     ZipStructuredReconstituter.zip_getRegion
       (ZipStructuredReconstituter.insert (n :: m :: rest) full r root) n
     = Ok FrozenMemoryRegion.empty).
Proof.
  unfold ZipStructuredReconstituter.zip_getRegion.
  repeat split.
  - intros [e He].
    destruct (ZipStructuredReconstituter.find n _); [discriminate|reflexivity].
  - intros ->. eexists. reflexivity.
  - intros e He.
    destruct (ZipStructuredReconstituter.find n _); [discriminate|].
    injection He as <-. eexists. reflexivity.
  - intros child ->. reflexivity.
  - intros m rest full r Hnone. cbn.
    rewrite find_assign_same, Hnone. reflexivity.
Qed.

(** C7, counterexample: in the index of a container whose only member is
    [b/c], the name [b] is not a leaf of the root (it has a child and no
    payload), yet [getRegion("b")] does not fail: it returns the empty
    region. *)
Lemma getRegion_substructure_does_not_fail :
  exists root,
    ZipStructuredReconstituter.index
      (FrozenMemoryRegion.make 4096 100 null_shared_ptr)
      [{| ZipStructuredReconstituter.header_path := ["b"; "c"]%string;
          ZipStructuredReconstituter.currentBlock := 4096 + 30;
          ZipStructuredReconstituter.block_length := 5 |}]
      ZipStructuredReconstituter.empty_entry = Ok root /\
    ZipStructuredReconstituter.is_leaf root "b"%string = false /\
    ZipStructuredReconstituter.zip_getRegion root "b"%string
    = Ok FrozenMemoryRegion.empty /\
    (forall e, ZipStructuredReconstituter.zip_getRegion root "b"%string <> Throw e).
Proof.
  eexists. split; [vm_compute; reflexivity|].
  split; [reflexivity|]. split; [reflexivity|]. intros e. discriminate.
Qed.

(** ** Seeking in the read-side stream buffer *)

Lemma to_int_small (off : Z) : - 2 ^ 31 <= off < 2 ^ 31 -> to_int off = off.
Proof. intros H. unfold to_int. rewrite Z.mod_small; lia. Qed.

Lemma create_over_length (r : FrozenMemoryRegion.t) :
  ReconstituteStreamHandler.over_length (FrozenMemoryRegion.length r) (ReconstituteStreamHandler.create r).
Proof. split; reflexivity. Qed.

(** C8, as the code has it: over a source of length [L], a seek with one of
    the three directions raises nothing and moves the read position to the
    target itself, with no clamping: [off] from the beginning, [L + off]
    from the end, and the current position plus [off] narrowed to [int] for
    a relative seek; the handler stays laid over the same source. *)
Theorem seekoff_moves_to_target
    (L off : Z) (h : ReconstituteStreamHandler.t) :
  ReconstituteStreamHandler.over_length L h ->
  (exists h1, ReconstituteStreamHandler.seekoff off seek_beg h = Ok (off, h1) /\
              ReconstituteStreamHandler.position h1 = off /\ ReconstituteStreamHandler.over_length L h1) /\
  (exists h2, ReconstituteStreamHandler.seekoff off seek_end h = Ok (L + off, h2) /\
              ReconstituteStreamHandler.position h2 = L + off /\ ReconstituteStreamHandler.over_length L h2) /\
  (exists h3, ReconstituteStreamHandler.seekoff off seek_cur h
              = Ok (ReconstituteStreamHandler.position h + to_int off, h3) /\
              ReconstituteStreamHandler.position h3
              = ReconstituteStreamHandler.position h + to_int off /\
              ReconstituteStreamHandler.over_length L h3).
Proof.
  destruct h as [eb gp eg st en rg]. intros [Hb He]. cbn in Hb, He. subst eb en.
  unfold ReconstituteStreamHandler.seekoff, ReconstituteStreamHandler.position,
    ReconstituteStreamHandler.over_length.
  cbn. repeat split; eexists; (split; [do 2 f_equal; lia|]);
    cbn; repeat split; lia.
Qed.

Lemma seekoff_moves_to_target_witness :
  let h := ReconstituteStreamHandler.create
             (FrozenMemoryRegion.make 4096 10 null_shared_ptr) in
  (exists h1, ReconstituteStreamHandler.seekoff 20 seek_beg h = Ok (20, h1) /\
              ReconstituteStreamHandler.position h1 = 20 /\ ReconstituteStreamHandler.over_length 10 h1) /\
  (exists h2, ReconstituteStreamHandler.seekoff 20 seek_end h = Ok (10 + 20, h2) /\
              ReconstituteStreamHandler.position h2 = 10 + 20 /\ ReconstituteStreamHandler.over_length 10 h2) /\
  (exists h3, ReconstituteStreamHandler.seekoff 20 seek_cur h
              = Ok (ReconstituteStreamHandler.position h + to_int 20, h3) /\
              ReconstituteStreamHandler.position h3
              = ReconstituteStreamHandler.position h + to_int 20 /\
              ReconstituteStreamHandler.over_length 10 h3).
Proof.
  intros h.
  apply (seekoff_moves_to_target 10 20 h).
  apply (create_over_length (FrozenMemoryRegion.make 4096 10 null_shared_ptr)).
Defined.

(** C8, counterexample: over a source of 10 bytes, seeking to offset 20 from
    the beginning leaves the read position at 20, where clamping to [0, 10]
    would give 10; seeking 5 bytes back from the start leaves it at -5. *)
Lemma seekoff_out_of_range_not_clamped :
  let h := ReconstituteStreamHandler.create
             (FrozenMemoryRegion.make 4096 10 null_shared_ptr) in
  (exists h1, ReconstituteStreamHandler.seekoff 20 seek_beg h = Ok (20, h1) /\
              ReconstituteStreamHandler.position h1 = 20 /\
              ReconstituteStreamHandler.clamp 10 20 = 10 /\
              ReconstituteStreamHandler.position h1
              <> ReconstituteStreamHandler.clamp 10 20) /\
  (exists h2, ReconstituteStreamHandler.seekoff (-5) seek_cur h = Ok (-5, h2) /\
              ReconstituteStreamHandler.position h2
              <> ReconstituteStreamHandler.clamp 10 (0 + -5)).
Proof.
  split; eexists; repeat split; try reflexivity; vm_compute; discriminate.
Qed.

(** ** Zero-length allocations *)

(** C5, as the code has it: on the file-backed serializer a request of zero
    bytes returns, without touching the state, an empty region whose handle
    is null, and that region freezes to a region of length 0.  On the
    heap-backed serializer the request goes to [posix_memalign] like any
    other: when the allocator reports an error the call throws, otherwise
    the region is empty, its handle holds whatever pointer the allocator
    stored (null only if the allocator stored null), and it freezes to a
    region of length 0 with that same handle. *)
Theorem zero_length_allocation (sys : Sys) :
  (forall fuel alignment st,
     exists region,
       FileSerializer.allocateWritable sys fuel 0 alignment st = (Ok region, st) /\
       MutableMemoryRegion.length region = 0 /\
       MutableMemoryRegion.handle region = null_shared_ptr /\
       FrozenMemoryRegion.length (MutableMemoryRegion_freeze region) = 0 /\
       FrozenMemoryRegion.handle (MutableMemoryRegion_freeze region)
       = null_shared_ptr) /\
  (forall now this alignment,
     let asked := if alignment <? pointer_size then pointer_size else alignment in
     (fst (posix_memalign sys now asked 0) <> 0 ->
      exists e, MemorySerializer.allocateWritable sys now this 0 alignment = Throw e) /\
     (fst (posix_memalign sys now asked 0) = 0 ->
      exists region,
        MemorySerializer.allocateWritable sys now this 0 alignment = Ok region /\
        MutableMemoryRegion.length region = 0 /\
        get (MutableMemoryRegion.handle region) = snd (posix_memalign sys now asked 0) /\
        FrozenMemoryRegion.length (MutableMemoryRegion_freeze region) = 0 /\
        FrozenMemoryRegion.handle (MutableMemoryRegion_freeze region)
        = MutableMemoryRegion.handle region)).
Proof.
  split.
  - intros fuel alignment st. eexists. split; [reflexivity|]. cbn. auto.
  - intros now this alignment asked. unfold MemorySerializer.allocateWritable.
    fold asked. destruct (posix_memalign sys now asked 0) as [res mem]. cbn [fst snd].
    split; intros Hres.
    + destruct (Z.eqb_spec res 0); [contradiction|]. eexists. reflexivity.
    + subst res. eexists. split; [reflexivity|].
      unfold MutableMemoryRegion_freeze. destruct this; cbn; auto.
Qed.

(** C5, counterexample: with an allocator that, like glibc, returns a
    non-null block for a request of zero bytes, the heap-backed serializer
    returns an empty region whose handle is not null. *)
Lemma heap_zero_length_handle_not_null :
  exists region,
    MemorySerializer.allocateWritable (cooperative_sys (fun _ => true)) 0
      OwnerMemorySerializer 0 1 = Ok region /\
    MutableMemoryRegion.length region = 0 /\
    get (MutableMemoryRegion.handle region) = 32768 /\
    get (MutableMemoryRegion.handle region) <> 0 /\
    MutableMemoryRegion.handle region <> null_shared_ptr.
Proof.
  eexists. split; [vm_compute; reflexivity|].
  split; [reflexivity|]. split; [reflexivity|]. split; discriminate.
Qed.

(** ** Entries written by the structured serializer *)

Section EntryNames.

Variable sys : Sys.
Variable w : ZipStructuredSerializer.World.
Variable src : list Byte.byte.
Variable mem : Z.

Let t0 := ZipStructuredSerializer.now w.
Let n := Z.of_nat (List.length src).

Hypothesis allocation_succeeds : posix_memalign sys t0 pointer_size n = (0, mem).
Hypothesis header_written : archive_write_header sys (S t0) = 0.
Hypothesis data_written : archive_write_data sys (S (S t0)) n = n.

(** Storing [src] through an entry named [name] below [this] appends one
    member to the archive, named [path ++ name] and holding [src]. *)
Lemma stored_entry (this : ZipStructuredSerializer.Itl) (name : PathElement) :
  let entry := ZipStructuredSerializer.newEntry this name in
  exists w',
    ZipStructuredSerializer.with_entry sys entry
      (ZipStructuredSerializer.entry_store sys entry src) w = (Ok tt, w') /\
    ZipStructuredSerializer.archive w' =
    ZipStructuredSerializer.archive w ++
      [{| ZipStructuredSerializer.pathname :=
            path_append (ZipStructuredSerializer.path this) name;
          ZipStructuredSerializer.size := n;
          ZipStructuredSerializer.perm := 288;
          ZipStructuredSerializer.payload := src |}].
Proof.
  intros entry.
  unfold ZipStructuredSerializer.with_entry, ZipStructuredSerializer.entry_store,
    ZipStructuredSerializer.entry_allocateWritable, bind, modify, ret,
    MemorySerializer.allocateWritable.
  change (1 <? pointer_size) with true. cbv iota.
  fold t0 n. rewrite allocation_succeeds. cbn [Z.eqb negb].
  unfold ZipStructuredSerializer.entry_destroy, ZipStructuredSerializer.writeEntry.
  cbn [ZipStructuredSerializer.entry_freeze snd ZipStructuredSerializer.frozen
       ZipStructuredSerializer.itl ZipStructuredSerializer.entryName
       ZipStructuredSerializer.tick ZipStructuredSerializer.set_memory
       ZipStructuredSerializer.now MemorySerializer.freeze
       FrozenMemoryRegion.length MutableMemoryRegion.length
       MutableMemoryRegion.data MutableMemoryRegion.handle].
  fold t0. rewrite header_written. cbn [Z.eqb negb].
  rewrite data_written, Z.eqb_refl. cbn [negb].
  eexists. split; [reflexivity|].
  cbn [ZipStructuredSerializer.archive ZipStructuredSerializer.add_entry
       ZipStructuredSerializer.tick ZipStructuredSerializer.memory].
  do 2 f_equal. unfold FrozenMemoryRegion.bytes, MemorySerializer.freeze.
  cbn [FrozenMemoryRegion.data FrozenMemoryRegion.length
       MutableMemoryRegion.data MutableMemoryRegion.length
       ZipStructuredSerializer.memory ZipStructuredSerializer.set_memory].
  unfold n. rewrite Nat2Z.id, read_bytes_memcpy. reflexivity.
Qed.

End EntryNames.

(** What [newObject] does: the encoder's bytes are written as the member
    [path ++ "md"], whatever [name] is. *)
Lemma newObject_entry_name (V : Type) (printJson : V -> list Byte.byte)
    (sys : Sys) (w : ZipStructuredSerializer.World)
    (this : ZipStructuredSerializer.Itl) (name : PathElement) (val : V)
    (mem : Z) :
  let t0 := ZipStructuredSerializer.now w in
  let n := Z.of_nat (List.length (printJson val)) in
  posix_memalign sys t0 pointer_size n = (0, mem) ->
  archive_write_header sys (S t0) = 0 ->
  archive_write_data sys (S (S t0)) n = n ->
  exists w',
    ZipStructuredSerializer.newObject sys printJson this name val w = (Ok tt, w') /\
    ZipStructuredSerializer.archive w' =
    ZipStructuredSerializer.archive w ++
      [{| ZipStructuredSerializer.pathname :=
            path_append (ZipStructuredSerializer.path this) "md"%string;
          ZipStructuredSerializer.size := n;
          ZipStructuredSerializer.perm := 288;
          ZipStructuredSerializer.payload := printJson val |}].
Proof.
  intros t0 n Ha Hh Hd. unfold ZipStructuredSerializer.newObject.
  exact (stored_entry sys w (printJson val) mem Ha Hh Hd this "md"%string).
Qed.

(** The sibling [addRegion] does use its argument: the bytes of the region
    are written as the member [path ++ name]. *)
Lemma addRegion_entry_name (sys : Sys) (w : ZipStructuredSerializer.World)
    (this : ZipStructuredSerializer.Itl) (region : FrozenMemoryRegion.t)
    (name : PathElement) (mem : Z) :
  let t0 := ZipStructuredSerializer.now w in
  let src := FrozenMemoryRegion.bytes (ZipStructuredSerializer.memory w) region in
  let n := Z.of_nat (List.length src) in
  posix_memalign sys t0 pointer_size n = (0, mem) ->
  archive_write_header sys (S t0) = 0 ->
  archive_write_data sys (S (S t0)) n = n ->
  exists w',
    ZipStructuredSerializer.addRegion sys this region name w = (Ok tt, w') /\
    ZipStructuredSerializer.archive w' =
    ZipStructuredSerializer.archive w ++
      [{| ZipStructuredSerializer.pathname :=
            path_append (ZipStructuredSerializer.path this) name;
          ZipStructuredSerializer.size := n;
          ZipStructuredSerializer.perm := 288;
          ZipStructuredSerializer.payload := src |}].
Proof.
  intros t0 src n Ha Hh Hd.
  exact (stored_entry sys w src mem Ha Hh Hd this name).
Qed.

(** C6 at a concrete input: below the structure [cols], [newObject] called
    with the name [stats] and a value that encodes to the two bytes [{}]
    writes one member, named [cols/md] and not [cols/stats]. *)
Theorem newObject_ignores_name :
  let sys := cooperative_sys (fun _ => true) in
  let w0 := {| ZipStructuredSerializer.now := 0%nat;
               ZipStructuredSerializer.memory := fun _ => Byte.x00;
               ZipStructuredSerializer.archive := [] |} in
  let this := ZipStructuredSerializer.RelativeItl
                ZipStructuredSerializer.BaseItl "cols"%string in
  let out := ZipStructuredSerializer.newObject sys
               (fun _ : unit => [Byte.x7b; Byte.x7d]) this "stats"%string tt w0 in
  fst out = Ok tt /\
  ZipStructuredSerializer.archive (snd out) =
    [{| ZipStructuredSerializer.pathname := ["cols"; "md"]%string;
        ZipStructuredSerializer.size := 2;
        ZipStructuredSerializer.perm := 288;
        ZipStructuredSerializer.payload := [Byte.x7b; Byte.x7d] |}] /\
  map ZipStructuredSerializer.pathname (ZipStructuredSerializer.archive (snd out))
  <> [path_append (ZipStructuredSerializer.path this) "stats"%string].
Proof.
  cbv zeta. split; [vm_compute; reflexivity|].
  split; [vm_compute; reflexivity|]. vm_compute. discriminate.
Qed.

(** ** The file serializer, step by step *)


Lemma back_snoc (t : nat) (fs ca : Z) (l : list Arena.t) (a : Arena.t) :
  FileSerializer.back (FileSerializer.make t fs ca (l ++ [a]))
  = (Ok a, FileSerializer.make t fs ca (l ++ [a])).
Proof. unfold FileSerializer.back. cbn. now rewrite rev_unit. Qed.

Lemma back_nil (t : nat) (fs ca : Z) :
  FileSerializer.back (FileSerializer.make t fs ca [])
  = (Undefined, FileSerializer.make t fs ca []).
Proof. reflexivity. Qed.

Lemma set_back_snoc (t : nat) (fs ca : Z) (l : list Arena.t) (a b : Arena.t) :
  FileSerializer.set_back b (FileSerializer.make t fs ca (l ++ [a]))
  = (Ok tt, FileSerializer.make t fs ca (l ++ [b])).
Proof.
  unfold FileSerializer.set_back, modify, FileSerializer.set_arenas. cbn.
  now rewrite removelast_last.
Qed.

Lemma verifyLength_run (sys : Sys) (t : nat) (fs ca : Z) (ars : list Arena.t) :
  FileSerializer.verifyLength sys (FileSerializer.make t fs ca ars) =
  (if fstat sys t =? -1 then Throw (HttpReturnException 500 "fstat")
   else if fs =? ca then Ok tt
        else Throw (AssertionFailure "st.st_size == currentlyAllocated"),
   FileSerializer.make (S t) fs ca ars).
Proof.
  unfold FileSerializer.verifyLength, bind, FileSerializer.call_fstat, gets,
    throw, ret. cbn.
  destruct (fstat sys t =? -1); [reflexivity|]. cbn.
  destruct (fs =? ca); reflexivity.
Qed.

Lemma verifyLength_ok (sys : Sys) (t : nat) (ca : Z) (ars : list Arena.t) :
  fstat sys t = 0 ->
  FileSerializer.verifyLength sys (FileSerializer.make t ca ca ars) =
  (Ok tt, FileSerializer.make (S t) ca ca ars).
Proof. intros H. rewrite verifyLength_run, H, Z.eqb_refl. reflexivity. Qed.

Ltac norm_state :=
  cbn [FileSerializer.tick FileSerializer.set_file_size
       FileSerializer.set_currentlyAllocated FileSerializer.set_arenas
       FileSerializer.now FileSerializer.file_size
       FileSerializer.currentlyAllocated FileSerializer.arenas
       fst snd negb].

Ltac norm_state_in H :=
  cbn [FileSerializer.tick FileSerializer.set_file_size
       FileSerializer.set_currentlyAllocated FileSerializer.set_arenas
       FileSerializer.now FileSerializer.file_size
       FileSerializer.currentlyAllocated FileSerializer.arenas
       fst snd] in H.

Lemma bind_run {S A B : Type} (c : M S A) (k : A -> M S B) (s s' : S) (a : A) :
  c s = (Ok a, s') -> bind c k s = k a s'.
Proof. intros H. unfold bind. now rewrite H. Qed.

(** One step of a monadic computation on an explicit state. *)
Ltac step :=
  erewrite bind_run
    by (first [ apply verifyLength_ok; auto
              | apply back_snoc
              | apply set_back_snoc
              | reflexivity ]);
  norm_state.


Lemma new_arena_length_bounds (sys : Sys) (ca req : Z) :
  0 < page_size sys <= 2 ^ 32 -> 0 <= req ->
  req + page_size sys < size_t_modulus ->
  req <= new_arena_length sys ca req < size_t_modulus /\
  0 < new_arena_length sys ca req.
Proof.
  intros Hps Hreq Hfit. unfold new_arena_length.
  set (ps := page_size sys) in *.
  assert (HM : size_t_modulus = 2 ^ 64) by reflexivity.
  assert (H32 : 2 ^ 32 = 4294967296) by reflexivity.
  assert (H64 : 2 ^ 64 = 18446744073709551616) by reflexivity.
  assert (HPe : sub64 (add64 req ps) 1 = req + ps - 1).
  { unfold add64. rewrite (to_size_t_small (req + ps)) by lia.
    unfold sub64. apply to_size_t_small. lia. }
  rewrite !HPe.
  set (X := sub64 (add64 ca ps) 1).
  assert (HX : 0 <= X < size_t_modulus) by apply to_size_t_range.
  set (P := (req + ps - 1) / ps). set (Q := X / ps / 8).
  assert (HP1 : ps * P <= req + ps - 1) by (apply Z.mul_div_le; lia).
  assert (HP2 : req + ps - 1 < ps * Z.succ P) by (apply Z.mul_succ_div_gt; lia).
  assert (HP0 : 0 <= P) by (apply Z.div_pos; lia).
  assert (HQ0 : 0 <= Q) by (apply Z.div_pos; [apply Z.div_pos|]; lia).
  assert (HQ1 : ps * (X / ps) <= X) by (apply Z.mul_div_le; lia).
  assert (HQ2 : 8 * Q <= X / ps) by (apply Z.mul_div_le; lia).
  assert (HQ3 : ps * Q <= X) by nia.
  set (N := Z.max (Z.max P 1024) Q).
  assert (HN : 1024 <= N /\ P <= N /\ N * ps < size_t_modulus).
  { unfold N. repeat split; try lia.
    all: destruct (Z.max_spec (Z.max P 1024) Q) as [[_ ->]|[_ ->]];
      [nia|destruct (Z.max_spec P 1024) as [[_ ->]|[_ ->]]; nia]. }
  destruct HN as (HN1 & HN2 & HN3).
  assert (HN4 : P * ps <= N * ps) by (apply Z.mul_le_mono_nonneg_r; lia).
  assert (HN5 : 1024 * ps <= N * ps) by (apply Z.mul_le_mono_nonneg_r; lia).
  unfold mul64. fold N. rewrite to_size_t_small by lia.
  unfold Z.succ in HP2. lia.
Qed.

(** The outcome of [createNewArena] on a quiescent state of a cooperative
    system. *)
Lemma createNewArena_run (sys : Sys) (t : nat) (ca : Z) (ars : list Arena.t)
    (req : Z) :
  cooperative sys ->
  let newLength := new_arena_length sys ca req in
  let addr := mmap sys (S (S t)) newLength ca in
  FileSerializer.createNewArena sys req (FileSerializer.make t ca ca ars) =
  (Ok tt,
   FileSerializer.make (S (S (S (S t)))) (add64 ca newLength) (add64 ca newLength)
     (FileSerializer.emplaced sys ars (Arena.create addr ca newLength))).
Proof.
  intros (Hps & Htr & Hst & Hmap) newLength addr.
  unfold FileSerializer.createNewArena.
  step. step. fold (new_arena_length sys ca req). fold newLength.
  step. rewrite Htr. cbn [Z.eqb]. norm_state.
  step. fold addr.
  destruct (Z.eqb_spec addr MAP_FAILED) as [E|_].
  { destruct (Hmap (S (S t)) newLength ca) as [Hr _]. fold addr in Hr. lia. }
  step. step. apply verifyLength_ok. apply Hst.
Qed.

(** ** Bump allocation in one arena *)

Lemma padding_bounds (offset alignment : Z) :
  0 < alignment -> 0 <= padding offset alignment < alignment.
Proof.
  intros Ha. unfold padding.
  pose proof (Z.mod_pos_bound offset alignment Ha).
  destruct (Z.ltb_spec 0 (offset mod alignment)); lia.
Qed.

Lemma padding_aligns (offset alignment : Z) :
  0 < alignment -> (offset + padding offset alignment) mod alignment = 0.
Proof.
  intros Ha. unfold padding.
  pose proof (Z.mod_pos_bound offset alignment Ha).
  destruct (Z.ltb_spec 0 (offset mod alignment)).
  - pose proof (Z.div_mod offset alignment ltac:(lia)) as Hdm.
    replace (offset + (alignment - offset mod alignment))
      with ((offset / alignment + 1) * alignment) by lia.
    apply Z.mod_mul. lia.
  - rewrite Z.add_0_r. lia.
Qed.

Lemma allocate_run (bytes alignment : Z) (a : Arena.t) :
  0 < alignment -> 0 < bytes ->
  0 <= Arena.currentOffset a ->
  Arena.currentOffset a + alignment + bytes < size_t_modulus ->
  let need := Arena.currentOffset a + padding (Arena.currentOffset a) alignment + bytes in
  Arena.allocate bytes alignment a =
  if Arena.length a <? need then (0, a)
  else (Arena.addr a + padding (Arena.currentOffset a) alignment + Arena.currentOffset a,
        Arena.make (Arena.addr a) (Arena.startOffset a) (Arena.length a) need).
Proof.
  intros Ha Hb Hoff Hfit need. unfold Arena.allocate.
  pose proof (padding_bounds (Arena.currentOffset a) alignment Ha) as Hpad.
  pose proof (Z.mod_pos_bound (Arena.currentOffset a) alignment Ha) as Hmod.
  assert (Hextra :
    (if 0 <? Arena.currentOffset a mod alignment
     then sub64 alignment (Arena.currentOffset a mod alignment)
     else Arena.currentOffset a mod alignment)
    = padding (Arena.currentOffset a) alignment).
  { unfold padding.
    destruct (Z.ltb_spec 0 (Arena.currentOffset a mod alignment)).
    - unfold sub64. apply to_size_t_small. lia.
    - lia. }
  rewrite Hextra.
  unfold add64.
  rewrite (to_size_t_small (Arena.currentOffset a + bytes)) by lia.
  rewrite (to_size_t_small (Arena.currentOffset a + bytes + _)) by lia.
  rewrite (to_size_t_small (padding _ _ + bytes)) by lia.
  rewrite (to_size_t_small (Arena.currentOffset a + (_ + bytes))) by lia.
  replace (Arena.currentOffset a + bytes + padding (Arena.currentOffset a) alignment)
    with need by (unfold need; lia).
  replace (Arena.currentOffset a + (padding (Arena.currentOffset a) alignment + bytes))
    with need by (unfold need; lia).
  reflexivity.
Qed.

Lemma cooperative_sys_cooperative (g : nat -> bool) :
  cooperative (cooperative_sys g).
Proof.
  unfold cooperative, cooperative_sys. cbn [page_size ftruncate fstat mmap].
  split; [split; [lia|discriminate]|].
  split; [reflexivity|]. split; [reflexivity|].
  intros t len offset.
  assert (E40 : 2 ^ 40 = 1099511627776) by reflexivity.
  assert (H40 : 0 <= offset mod 2 ^ 40 < 2 ^ 40) by (apply Z.mod_pos_bound; lia).
  assert (EM : MAP_FAILED = 18446744073709551615) by reflexivity.
  split; [lia|].
  replace (2 ^ 40 + 4096 * (offset mod 2 ^ 40))
    with ((268435456 + offset mod 2 ^ 40) * 4096) by lia.
  apply Z.mod_mul. lia.
Qed.

(** ** A failed in-place growth *)


Lemma back_allocate_run (t : nat) (fs ca : Z) (l : list Arena.t) (a : Arena.t)
    (bytes alignment : Z) :
  alignment <> 0 ->
  FileSerializer.back_allocate bytes alignment
    (FileSerializer.make t fs ca (l ++ [a])) =
  (Ok (fst (Arena.allocate bytes alignment a)),
   FileSerializer.make t fs ca (l ++ [snd (Arena.allocate bytes alignment a)])).
Proof.
  intros Ha. unfold FileSerializer.back_allocate. step.
  destruct (Z.eqb_spec alignment 0); [contradiction|].
  destruct (Arena.allocate bytes alignment a) as [p a']. step. reflexivity.
Qed.


(** ** The size of an in-place growth *)

(** For a request of at most 10000 pages the growth computed by the code is
    the one the specification words: 10000 pages. *)
Lemma expansion_small_request (sys : Sys) (req : Z) :
  0 < page_size sys <= 2 ^ 32 -> 0 <= req <= 10000 * page_size sys ->
  FileSerializer.expansion sys req = 10000 * page_size sys /\
  expansion_per_spec sys req = 10000 * page_size sys.
Proof.
  intros Hps Hreq. unfold FileSerializer.expansion, expansion_per_spec.
  set (ps := page_size sys) in *.
  assert (H32 : 2 ^ 32 = 4294967296) by reflexivity.
  assert (HM : size_t_modulus = 18446744073709551616) by reflexivity.
  assert (HPe : sub64 (add64 req ps) 1 = req + ps - 1).
  { unfold add64. rewrite (to_size_t_small (req + ps)) by lia.
    unfold sub64. apply to_size_t_small. lia. }
  rewrite HPe. unfold mul64. rewrite to_size_t_small by lia.
  set (P := (req + ps - 1) / ps).
  assert (HP : P <= 10000).
  { assert (P < 10001); [|lia]. apply Z.div_lt_upper_bound; lia. }
  assert (HP0 : 0 <= P) by (apply Z.div_pos; lia).
  assert (HPps : P * ps <= 10000 * ps) by (apply Z.mul_le_mono_nonneg_r; lia).
  split; lia.
Qed.

(** C2 at a concrete input: with 4 KiB pages and a full last arena, a
    request of 40964095 bytes at alignment 1 (10001 pages once padded) makes
    the in-place growth extend the file and the arena by 40960000 bytes,
    that is by 10000 pages, where the requested size rounded up to whole
    pages is 40964096 bytes: the code takes the maximum of a number of pages
    and a number of bytes. *)
Theorem expansion_mixes_pages_and_bytes :
  let sys := cooperative_sys (fun _ => true) in
  let full := Arena.make 1099511627776 0 4194304 4194304 in
  let st := FileSerializer.make 0 4194304 4194304 [full] in
  fst (Arena.allocate 40964095 1 full) = 0 /\
  FileSerializer.expandLastArena sys (add64 40964095 1) st =
  (Ok true,
   FileSerializer.make 4 (4194304 + 40960000) (4194304 + 40960000)
     [Arena.make 1099511627776 0 (4194304 + 40960000) 4194304]) /\
  FileSerializer.expansion sys (add64 40964095 1) = 40960000 /\
  expansion_per_spec sys (40964095 + 1) = 40964096.
Proof. cbv zeta. repeat split; vm_compute; reflexivity. Qed.

(** ** Commit *)

(** C4, as the code has it: with at least one arena, [commit] truncates the
    file to the start offset of the last arena plus its current offset, so
    that nothing of the last arena beyond its high-water mark stays in the
    file; the arenas and [currentlyAllocated] are left as they are.  When the
    truncation fails, [commit] throws. *)
Theorem commit_truncates_to_high_water_mark (sys : Sys)
    (st : FileSerializer.Itl) (l : list Arena.t) (last : Arena.t) :
  FileSerializer.arenas st = l ++ [last] ->
  let realLength := add64 (Arena.startOffset last) (Arena.currentOffset last) in
  (ftruncate sys (FileSerializer.now st) realLength = 0 ->
   exists st',
     FileSerializer.commit sys st = (Ok tt, st') /\
     FileSerializer.file_size st' = realLength /\
     (0 <= Arena.startOffset last + Arena.currentOffset last < size_t_modulus ->
      FileSerializer.file_size st'
      = Arena.startOffset last + Arena.currentOffset last) /\
     FileSerializer.arenas st' = FileSerializer.arenas st /\
     FileSerializer.currentlyAllocated st' = FileSerializer.currentlyAllocated st) /\
  (ftruncate sys (FileSerializer.now st) realLength = -1 ->
   exists e st', FileSerializer.commit sys st = (Throw e, st') /\
                 FileSerializer.file_size st' = FileSerializer.file_size st).
Proof.
  destruct st as [t fs ca ars]. cbn [FileSerializer.arenas FileSerializer.now
    FileSerializer.file_size FileSerializer.currentlyAllocated].
  intros ->.
  set (realLength := add64 (Arena.startOffset last) (Arena.currentOffset last)).
  assert (Hne : match l ++ [last] with [] => true | _ :: _ => false end = false)
    by (destruct l; reflexivity).
  unfold FileSerializer.commit.
  split; intros Htr.
  - step. rewrite Hne. step. step. fold realLength. rewrite Htr.
    cbn [Z.eqb]. eexists. split; [reflexivity|]. norm_state.
    repeat split. intros Hfit. unfold realLength. apply to_size_t_small, Hfit.
  - step. rewrite Hne. step. step. fold realLength. rewrite Htr.
    cbn [Z.eqb]. do 2 eexists. split; [reflexivity|]. reflexivity.
Qed.

Lemma commit_truncates_to_high_water_mark_witness :
  let sys := cooperative_sys (fun _ => true) in
  let st := FileSerializer.make 7 4194304 4194304
              [Arena.make 1099511627776 0 4194304 16] in
  exists st',
    FileSerializer.commit sys st = (Ok tt, st') /\
    FileSerializer.file_size st' = 16.
Proof.
  intros sys st.
  destruct (commit_truncates_to_high_water_mark sys st []
              (Arena.make 1099511627776 0 4194304 16) eq_refl) as [Hok _].
  destruct (Hok eq_refl) as (st' & Hrun & Hsize & _).
  exists st'. split; [exact Hrun|exact Hsize].
Defined.

(** C4, counterexample: on a fresh serializer whose system never grows a
    mapping in place, the requests of 100 and of 5000000 bytes at alignment
    1 end in two arenas; after [commit] the file is 9194304 bytes long,
    while 5000100 bytes were requested: the unused tail of the first arena
    stays in the file.  The current offsets of the arenas add up to 5000000
    (the first arena was moved when the vector grew, which set its current
    offset back from 100 to 0), which is not the size of the file either. *)
Lemma commit_size_is_not_sum_of_allocations :
  let sys := cooperative_sys (fun _ => false) in
  let requests := [(100, 1); (5000000, 1)] in
  exists st,
    (allocate_all sys 2 requests ;; FileSerializer.commit sys)
      (FileSerializer.fresh 0) = (Ok tt, st) /\
    FileSerializer.arenas st <> [] /\
    FileSerializer.file_size st = 9194304 /\
    bytes_requested requests = 5000100 /\
    map Arena.currentOffset (FileSerializer.arenas st) = [0; 5000000] /\
    bytes_consumed st = 5000000 /\
    FileSerializer.file_size st <> bytes_requested requests /\
    FileSerializer.file_size st <> bytes_consumed st.
Proof.
  cbv zeta. eexists. split; [vm_compute; reflexivity|].
  repeat split; try reflexivity; vm_compute; discriminate.
Qed.

(** ** Allocation on the file serializer *)



Lemma allocateLoop_unfold (sys : Sys) (fuel : nat) (bytes alignment : Z) :
  FileSerializer.allocateLoop sys (S fuel) bytes alignment =
  (allocated <- FileSerializer.back_allocate bytes alignment ;;
   if allocated =? 0 then
     expanded <- FileSerializer.expandLastArena sys (add64 bytes alignment) ;;
     (if expanded : bool then ret tt
      else FileSerializer.createNewArena sys (add64 bytes alignment)) ;;
     FileSerializer.allocateLoop sys fuel bytes alignment
   else ret allocated).
Proof. reflexivity. Qed.





(** ** A failed in-place growth and the allocation around it *)




(** ** Alignment of allocations *)








(** ** Scenarios *)

(** A container with the members [a], [b/c] and the empty [b/d]: the
    lookups by name and by path find the spans of the members, the empty
    member is an empty slice at the start of the container, and a missing
    name is reported with the status 400. *)
Example scenario_lookups :
  exists root : ZipStructuredReconstituter.Entry,
    ZipStructuredReconstituter.index scenario_container scenario_headers
      ZipStructuredReconstituter.empty_entry = Ok root /\
    getRegion root "a"%string
    = Ok (FrozenMemoryRegion.make (4096 + 31) 5 null_shared_ptr) /\
    getRegionRecursive root ["b"; "c"]%string
    = Ok (FrozenMemoryRegion.make (4096 + 69) 5 null_shared_ptr) /\
    getRegionRecursive root ["b"; "d"]%string
    = Ok (FrozenMemoryRegion.make 4096 0 null_shared_ptr) /\
    getRegion root "missing"%string
    = Throw (HttpReturnException 400 "Child structure not found") /\
    map ZipStructuredReconstituter.name (ZipStructuredReconstituter.getDirectory root)
    = ["a"; "b"]%string /\
    map ZipStructuredReconstituter.hasStructure
        (ZipStructuredReconstituter.getDirectory root)
    = [false; true].
Proof. eexists. split; [vm_compute; reflexivity|]. repeat split. Qed.

(** A slice whose end lies before its start is refused. *)
Example scenario_reversed_slice :
  FrozenMemoryRegion.range scenario_container 5 3
  = Throw (AssertionFailure "end >= start").
Proof. reflexivity. Qed.

(** Ten bytes at alignment 8 from the heap-backed serializer. *)
Example scenario_heap_allocation :
  exists region,
    MemorySerializer.allocateWritable (cooperative_sys (fun _ => true)) 3
      OwnerMemorySerializer 10 8 = Ok region /\
    MutableMemoryRegion.length region = 10 /\
    MutableMemoryRegion.data region mod 8 = 0 /\
    MutableMemoryRegion_freeze region
    = FrozenMemoryRegion.make (MutableMemoryRegion.data region) 10
        (MutableMemoryRegion.handle region).
Proof. eexists. split; [vm_compute; reflexivity|]. repeat split. Qed.

(* ================================================================= *)
(** * Further properties of the code *)

(** ** Bump allocation *)

Lemma add64_assoc_swap (a b c : Z) :
  add64 a (add64 c b) = add64 (add64 a b) c.
Proof.
  unfold add64, to_size_t.
  rewrite Zplus_mod_idemp_r, Zplus_mod_idemp_l. f_equal. lia.
Qed.

(** X1: [Arena::allocate] never moves the bump offset past the end of the
    arena, not even when the sizes wrap around, and it leaves the address,
    the start offset and the length of the arena alone. *)
Theorem allocate_never_overruns (bytes alignment : Z) (a : Arena.t) :
  Arena.currentOffset a <= Arena.length a ->
  Arena.addr (snd (Arena.allocate bytes alignment a)) = Arena.addr a /\
  Arena.startOffset (snd (Arena.allocate bytes alignment a)) = Arena.startOffset a /\
  Arena.length (snd (Arena.allocate bytes alignment a)) = Arena.length a /\
  Arena.currentOffset (snd (Arena.allocate bytes alignment a)) <= Arena.length a.
Proof.
  intros Hoff. unfold Arena.allocate.
  set (extra := if 0 <? Arena.currentOffset a mod alignment
                then sub64 alignment (Arena.currentOffset a mod alignment)
                else Arena.currentOffset a mod alignment).
  destruct (Z.ltb_spec (Arena.length a)
              (add64 (add64 (Arena.currentOffset a) bytes) extra)) as [|Hfits].
  - cbn. auto.
  - cbn. rewrite add64_assoc_swap. auto.
Qed.

Lemma allocate_never_overruns_witness :
  let a := Arena.make 4096 0 100 90 in
  Arena.currentOffset (snd (Arena.allocate 18446744073709551615 1 a)) <= 100.
Proof.
  intros a.
  apply (allocate_never_overruns 18446744073709551615 1 a). cbn. lia.
Defined.

(** X2: take an arena mapped at a non-null address with a current offset
    that is not negative, and two requests of positive size and alignment
    for which the sums [currentOffset + alignment + bytes] (first request)
    and [length + alignment + bytes] (second request) stay below [2^64], so
    that no offset wraps around.  If [allocate] returns a non-null block for
    the first request and then, on the arena it leaves, a non-null block for
    the second, the two blocks do not overlap and lie inside the mapping of
    the arena: the first starts at or after the old bump position and ends
    at or before the start of the second, the second ends at or before the
    end of the arena, and each starts at a multiple of its alignment from
    the base of the arena. *)
Theorem successive_blocks_do_not_overlap
    (a a1 a2 : Arena.t) (b1 al1 b2 al2 p1 p2 : Z) :
  0 < Arena.addr a -> 0 <= Arena.currentOffset a ->
  0 < b1 -> 0 < al1 -> 0 < b2 -> 0 < al2 ->
  Arena.currentOffset a + al1 + b1 < size_t_modulus ->
  Arena.length a + al2 + b2 < size_t_modulus ->
  Arena.allocate b1 al1 a = (p1, a1) -> p1 <> 0 ->
  Arena.allocate b2 al2 a1 = (p2, a2) -> p2 <> 0 ->
  Arena.addr a + Arena.currentOffset a <= p1 /\
  p1 + b1 <= p2 /\
  p2 + b2 <= Arena.addr a + Arena.length a /\
  (p1 - Arena.addr a) mod al1 = 0 /\
  (p2 - Arena.addr a) mod al2 = 0.
Proof.
  intros Haddr Hoff Hb1 Hal1 Hb2 Hal2 Hfit1 Hfit2 H1 Hp1 H2 Hp2.
  pose proof (padding_bounds (Arena.currentOffset a) al1 Hal1) as Hpad1.
  rewrite allocate_run in H1 by lia.
  destruct (Z.ltb_spec (Arena.length a)
              (Arena.currentOffset a + padding (Arena.currentOffset a) al1 + b1))
    as [|Hroom1]; [injection H1 as <- _; contradiction|].
  injection H1 as <- <-.
  pose proof (padding_bounds
                (Arena.currentOffset a + padding (Arena.currentOffset a) al1 + b1)
                al2 Hal2) as Hpad2.
  rewrite allocate_run in H2
    by (cbn [Arena.currentOffset Arena.length Arena.addr]; lia).
  cbn [Arena.currentOffset Arena.length Arena.addr Arena.startOffset] in H2.
  match type of H2 with
  | (if ?c then _ else _) = _ => destruct c eqn:Hroom2
  end; [injection H2 as <- _; contradiction|].
  apply Z.ltb_ge in Hroom2. injection H2 as <- <-.
  repeat split; try lia.
  - replace (Arena.addr a + padding (Arena.currentOffset a) al1
             + Arena.currentOffset a - Arena.addr a)
      with (Arena.currentOffset a + padding (Arena.currentOffset a) al1) by lia.
    apply padding_aligns. lia.
  - match goal with
    | |- (Arena.addr a + padding ?o al2 + ?o - Arena.addr a) mod al2 = 0 =>
        replace (Arena.addr a + padding o al2 + o - Arena.addr a)
          with (o + padding o al2) by lia
    end.
    apply padding_aligns. lia.
Qed.

Lemma successive_blocks_do_not_overlap_witness :
  let a := Arena.make 4096 0 100 3 in
  4096 + 3 <= 4104 /\ 4104 + 5 <= 4112 /\ 4112 + 7 <= 4096 + 100 /\
  (4104 - 4096) mod 8 = 0 /\ (4112 - 4096) mod 4 = 0.
Proof.
  intros a.
  apply (successive_blocks_do_not_overlap a
           (Arena.make 4096 0 100 13) (Arena.make 4096 0 100 23) 5 8 7 4 4104 4112);
    cbn; unfold size_t_modulus; try lia; try reflexivity.
Defined.

(** ** What the allocation code does to the arenas *)

Lemma snoc_cases {A : Type} (l : list A) :
  l = [] \/ exists l' x, l = l' ++ [x].
Proof.
  destruct l as [|x l] using rev_ind; [left; reflexivity|right; eauto].
Qed.

(** Case analysis on every test of a computation unfolded in [H]. *)
Ltac split_tests H :=
  repeat first
    [ progress (cbv beta iota in H)
    | rewrite rev_unit in H
    | rewrite removelast_last in H
    | match type of H with
      | context [if ?c then _ else _] => destruct c
      end ].

Lemma createNewArena_step (sys : Sys) (req : Z) :
  respects arena_step (FileSerializer.createNewArena sys req).
Proof.
  intros [t fs ca ars] o s' H.
  cbv [FileSerializer.createNewArena FileSerializer.verifyLength bind gets
       modify throw ret FileSerializer.call_fstat FileSerializer.call_ftruncate
       FileSerializer.call_mmap FileSerializer.emplaced
       FileSerializer.tick FileSerializer.set_file_size
       FileSerializer.set_currentlyAllocated FileSerializer.set_arenas
       FileSerializer.now FileSerializer.file_size
       FileSerializer.currentlyAllocated FileSerializer.arenas fst snd] in H.
  destruct (vector_reallocates sys (Datatypes.length ars)) eqn:Hfull.
  all: split_tests H.
  all: injection H as _ <-.
  all: first [ apply step_same; reflexivity
             | eapply (step_new _ _ true); reflexivity
             | eapply (step_new _ _ false); reflexivity ].
Qed.

Lemma expandLastArena_step (sys : Sys) (req : Z) :
  respects arena_step (FileSerializer.expandLastArena sys req).
Proof.
  intros [t fs ca ars] o s' H.
  destruct (snoc_cases ars) as [->|(l & last & ->)].
  - cbv [FileSerializer.expandLastArena FileSerializer.verifyLength bind gets
         throw ret FileSerializer.call_fstat FileSerializer.back rev
         FileSerializer.tick FileSerializer.now FileSerializer.file_size
         FileSerializer.currentlyAllocated FileSerializer.arenas fst snd] in H.
    split_tests H.
    all: injection H as _ <-; apply step_same; reflexivity.
  - cbv [FileSerializer.expandLastArena FileSerializer.verifyLength bind gets
         modify throw ret FileSerializer.call_fstat FileSerializer.call_ftruncate
         FileSerializer.call_mremap FileSerializer.back FileSerializer.set_back
         FileSerializer.tick FileSerializer.set_file_size
         FileSerializer.set_currentlyAllocated FileSerializer.set_arenas
         FileSerializer.now FileSerializer.file_size
         FileSerializer.currentlyAllocated FileSerializer.arenas fst snd] in H.
    split_tests H.
    all: injection H as _ <-.
    all: first [ apply step_same; reflexivity
               | eapply step_grow; reflexivity ].
Qed.

Lemma back_allocate_step (bytes alignment : Z) :
  respects arena_step (FileSerializer.back_allocate bytes alignment).
Proof.
  intros [t fs ca ars] o s' H.
  destruct (snoc_cases ars) as [->|(l & last & ->)].
  - cbv in H. injection H as _ <-. apply step_same; reflexivity.
  - unfold FileSerializer.back_allocate in H.
    erewrite bind_run in H by apply back_snoc.
    destruct (alignment =? 0).
    + injection H as _ <-. apply step_same; reflexivity.
    + destruct (Arena.allocate bytes alignment last) as [p last'] eqn:Halloc.
      erewrite bind_run in H by apply set_back_snoc.
      injection H as _ <-.
      assert (Hshape : last' = Arena.make (Arena.addr last) (Arena.startOffset last)
                                 (Arena.length last) (Arena.currentOffset last')).
      { unfold Arena.allocate in Halloc.
        match type of Halloc with
        | (if ?c then _ else _) = _ => destruct c
        end; injection Halloc as _ <-; [destruct last|]; reflexivity. }
      rewrite Hshape. eapply step_bump; reflexivity.
Qed.

Section Respects.

Variable R : FileSerializer.Itl -> FileSerializer.Itl -> Prop.
Hypothesis R_refl : forall s, R s s.
Hypothesis R_trans : forall s1 s2 s3, R s1 s2 -> R s2 s3 -> R s1 s3.
Hypothesis R_step : forall s s', arena_step s s' -> R s s'.

Lemma respects_bind {A B : Type} (c : M FileSerializer.Itl A)
    (k : A -> M FileSerializer.Itl B) :
  respects R c -> (forall a, respects R (k a)) -> respects R (bind c k).
Proof.
  intros Hc Hk s o s' H. unfold bind in H.
  destruct (c s) as [[a|e| | |] s1] eqn:Hcs.
  - apply R_trans with s1; [eapply Hc; eassumption|eapply Hk; eassumption].
  - injection H as _ <-. eapply Hc; eassumption.
  - injection H as _ <-. eapply Hc; eassumption.
  - injection H as _ <-. eapply Hc; eassumption.
  - injection H as _ <-. eapply Hc; eassumption.
Qed.

Lemma respects_pure {A : Type} (o : Outcome A) :
  respects R (fun s => (o, s)).
Proof. intros s o' s' H. injection H as _ <-. apply R_refl. Qed.

Lemma respects_gets {A : Type} (f : FileSerializer.Itl -> A) :
  respects R (gets f).
Proof. intros s o' s' H. injection H as _ <-. apply R_refl. Qed.

Lemma respects_ftruncate (sys : Sys) (len : Z) :
  respects R (FileSerializer.call_ftruncate sys len).
Proof.
  intros [t fs ca ars] o s' H. unfold FileSerializer.call_ftruncate in H.
  injection H as _ <-. apply R_step, step_same; destruct (_ =? 0); reflexivity.
Qed.

Lemma respects_back : respects R FileSerializer.back.
Proof.
  intros s o s' H. unfold FileSerializer.back in H.
  destruct (rev (FileSerializer.arenas s)); injection H as _ <-; apply R_refl.
Qed.

Lemma allocateLoop_respects (sys : Sys) (bytes alignment : Z) (fuel : nat) :
  respects R (FileSerializer.allocateLoop sys fuel bytes alignment).
Proof.
  induction fuel as [|fuel IH].
  - apply (respects_pure OutOfFuel).
  - rewrite allocateLoop_unfold. apply respects_bind.
    + intros s o s' H. apply R_step. eapply back_allocate_step; eassumption.
    + intros allocated. destruct (allocated =? 0).
      * apply respects_bind.
        { intros s o s' H. apply R_step. eapply expandLastArena_step; eassumption. }
        intros expanded. apply respects_bind; [|intros _; exact IH].
        destruct expanded; [apply (respects_pure (Ok tt))|].
        intros s o s' H. apply R_step. eapply createNewArena_step; eassumption.
      * apply (respects_pure (Ok allocated)).
Qed.

Lemma allocateWritable_respects (sys : Sys) (fuel : nat) (bytes alignment : Z) :
  respects R (FileSerializer.allocateWritable sys fuel bytes alignment).
Proof.
  unfold FileSerializer.allocateWritable, FileSerializer.allocateWritableImpl.
  apply respects_bind; [|intros handle; apply (respects_pure (Ok _))].
  destruct (bytes =? 0); [apply (respects_pure (Ok _))|].
  apply respects_bind; [apply respects_gets|]. intros empty.
  apply respects_bind.
  { destruct empty; [|apply (respects_pure (Ok tt))].
    intros s o s' H. apply R_step. eapply createNewArena_step; eassumption. }
  intros _. apply respects_bind; [apply allocateLoop_respects|].
  intros allocated. destruct (negb _).
  - apply (respects_pure (Throw _)).
  - apply (respects_pure (Ok _)).
Qed.

Lemma commit_respects (sys : Sys) : respects R (FileSerializer.commit sys).
Proof.
  unfold FileSerializer.commit.
  apply respects_bind; [apply respects_gets|]. intros empty.
  destruct empty; [apply (respects_pure (Ok tt))|].
  apply respects_bind; [apply respects_back|]. intros last.
  apply respects_bind; [apply respects_ftruncate|]. intros res.
  destruct (res =? -1); [apply (respects_pure (Throw _))|apply (respects_pure (Ok tt))].
Qed.

End Respects.

(** ** Arenas are never moved or dropped *)

Lemma arenas_kept_refl (ars : list Arena.t) : arenas_kept ars ars.
Proof. split; [lia|]. intros i a H. exists a. repeat split; auto. Qed.

Lemma arenas_kept_trans (l1 l2 l3 : list Arena.t) :
  arenas_kept l1 l2 -> arenas_kept l2 l3 -> arenas_kept l1 l3.
Proof.
  intros [Hlen1 H1] [Hlen2 H2]. split; [lia|].
  intros i a Ha. destruct (H1 i a Ha) as (a' & Ha' & Haddr & Hstart & Hsame).
  destruct (H2 i a' Ha') as (a'' & Ha'' & Haddr' & Hstart' & Hsame').
  exists a''. repeat split; try congruence.
  - destruct (Hsame H) as [Hl _]. destruct (Hsame' ltac:(lia)) as [Hl' _].
    congruence.
  - destruct (Hsame H) as [_ Ho]. destruct (Hsame' ltac:(lia)) as [_ Ho'].
    destruct Ho' as [Ho'|Ho']; [|right; exact Ho'].
    destruct Ho as [Ho|Ho]; [left|right]; congruence.
Qed.

Lemma arenas_kept_new (moved : bool) (l : list Arena.t) (x : Arena.t) :
  arenas_kept l ((if moved then map Arena.move l else l) ++ [x]).
Proof.
  split.
  - rewrite length_app. destruct moved; [rewrite length_map|]; cbn; lia.
  - intros i a Ha.
    assert (Hi : (i < List.length l)%nat) by (apply nth_error_Some; congruence).
    destruct moved.
    + exists (Arena.move a).
      rewrite nth_error_app1 by (rewrite length_map; exact Hi).
      rewrite nth_error_map, Ha. cbn. repeat split; auto.
    + exists a. rewrite nth_error_app1 by exact Hi. repeat split; auto.
Qed.

Lemma arenas_kept_last (l : list Arena.t) (a b : Arena.t) :
  Arena.addr b = Arena.addr a -> Arena.startOffset b = Arena.startOffset a ->
  arenas_kept (l ++ [a]) (l ++ [b]).
Proof.
  intros Haddr Hstart. split; [rewrite !length_app; cbn; lia|].
  intros i x Hx.
  destruct (Nat.lt_ge_cases i (List.length l)) as [Hi|Hi].
  - rewrite nth_error_app1 in Hx by exact Hi.
    exists x. rewrite nth_error_app1 by exact Hi. repeat split; auto.
  - assert (Hlen : (i < List.length (l ++ [a]))%nat)
      by (apply nth_error_Some; congruence).
    rewrite length_app in Hlen. cbn in Hlen.
    assert (i = List.length l) by lia. subst i.
    rewrite nth_error_app2, Nat.sub_diag in Hx by lia. injection Hx as <-.
    exists b. rewrite nth_error_app2, Nat.sub_diag by lia.
    repeat split; auto.
    all: exfalso; rewrite length_app in H; cbn in H; lia.
Qed.

Lemma arena_step_kept (s s' : FileSerializer.Itl) :
  arena_step s s' ->
  arenas_kept (FileSerializer.arenas s) (FileSerializer.arenas s').
Proof.
  intros [Hars _|moved addr len Hars _|l last nl H1 H2 _|l last off H1 H2 _].
  - rewrite Hars. apply arenas_kept_refl.
  - rewrite Hars. apply arenas_kept_new.
  - rewrite H1, H2. apply arenas_kept_last; reflexivity.
  - rewrite H1, H2. apply arenas_kept_last; reflexivity.
Qed.

(** X3: whatever the system answers and however the call ends (a region, an
    exception, no fuel left), [allocateWritable] and [commit] never remove
    an arena or map it elsewhere: every arena is still at its index with the
    same address and start offset, and an arena that was not the last one
    also keeps its length, while its current offset either stays or is set
    back to 0 (when the vector of arenas moves its elements). *)
Theorem arenas_are_never_moved (sys : Sys) :
  (forall fuel bytes alignment st o st',
     FileSerializer.allocateWritable sys fuel bytes alignment st = (o, st') ->
     arenas_kept (FileSerializer.arenas st) (FileSerializer.arenas st')) /\
  (forall st o st',
     FileSerializer.commit sys st = (o, st') ->
     arenas_kept (FileSerializer.arenas st) (FileSerializer.arenas st')).
Proof.
  split.
  - intros fuel bytes alignment.
    apply (allocateWritable_respects
             (fun s s' => arenas_kept (FileSerializer.arenas s)
                                      (FileSerializer.arenas s'))).
    + intros s. apply arenas_kept_refl.
    + intros s1 s2 s3. apply arenas_kept_trans.
    + apply arena_step_kept.
  - apply (commit_respects
             (fun s s' => arenas_kept (FileSerializer.arenas s)
                                      (FileSerializer.arenas s'))).
    + intros s. apply arenas_kept_refl.
    + intros s1 s2 s3. apply arenas_kept_trans.
    + apply arena_step_kept.
Qed.

(** ** Arenas tile the file *)

Lemma to_size_t_add_congr (x y z : Z) :
  to_size_t x = to_size_t y -> to_size_t (x + z) = to_size_t (y + z).
Proof.
  unfold to_size_t. intros H.
  rewrite (Z.add_mod x z), (Z.add_mod y z), H by (unfold size_t_modulus; lia).
  reflexivity.
Qed.

Lemma to_size_t_idem (x : Z) : to_size_t (to_size_t x) = to_size_t x.
Proof. apply to_size_t_small, to_size_t_range. Qed.

Lemma total_length_snoc (l : list Arena.t) (a : Arena.t) :
  total_length (l ++ [a]) = total_length l + Arena.length a.
Proof. induction l as [|x l IH]; cbn; [lia|]. fold (total_length (l ++ [a])). rewrite IH. unfold total_length. lia. Qed.

Lemma arenas_tile_snoc (l : list Arena.t) (a : Arena.t) : forall start,
  arenas_tile start (l ++ [a]) <->
  arenas_tile start l /\
  to_size_t (Arena.startOffset a) = to_size_t (start + total_length l).
Proof.
  induction l as [|x l IH]; intros start; cbn.
  - rewrite Z.add_0_r. tauto.
  - fold (total_length l). rewrite IH.
    replace (start + Arena.length x + total_length l)
      with (start + (Arena.length x + total_length l)) by lia.
    tauto.
Qed.

Lemma total_length_moved (l : list Arena.t) :
  total_length (map Arena.move l) = total_length l.
Proof.
  induction l as [|a l IH]; [reflexivity|]. cbn.
  fold (total_length (map Arena.move l)) (total_length l). now rewrite IH.
Qed.

Lemma arenas_tile_moved (l : list Arena.t) : forall start,
  arenas_tile start (map Arena.move l) <-> arenas_tile start l.
Proof.
  induction l as [|a l IH]; intros start; cbn; [tauto|]. rewrite IH. tauto.
Qed.

Lemma arena_step_tiled (s s' : FileSerializer.Itl) :
  arena_step s s' -> tiled s -> tiled s'.
Proof.
  unfold tiled.
  intros [Hars Hca|moved addr len Hars Hca|l last nl H1 H2 Hca|l last off H1 H2 Hca]
         [Htile Htotal].
  - rewrite Hars, Hca. auto.
  - assert (Hkeep :
      arenas_tile 0 (if moved then map Arena.move (FileSerializer.arenas s)
                     else FileSerializer.arenas s) /\
      total_length (if moved then map Arena.move (FileSerializer.arenas s)
                    else FileSerializer.arenas s)
      = total_length (FileSerializer.arenas s)).
    { destruct moved; [|auto]. split; [apply arenas_tile_moved; exact Htile|].
      apply total_length_moved. }
    destruct Hkeep as [Htile' Htotal'].
    rewrite Hars, Hca. split.
    + apply arenas_tile_snoc. split; [exact Htile'|]. cbn. rewrite Htotal'.
      exact Htotal.
    + rewrite total_length_snoc, Htotal'. cbn [Arena.create Arena.length].
      unfold add64. rewrite to_size_t_idem. apply to_size_t_add_congr, Htotal.
  - rewrite H1 in Htile, Htotal. rewrite H2, Hca.
    apply arenas_tile_snoc in Htile. rewrite total_length_snoc in *.
    split; [apply arenas_tile_snoc; exact Htile|].
    cbn [Arena.set_length Arena.length].
    unfold add64, sub64. rewrite to_size_t_idem.
    rewrite (Z.add_comm (FileSerializer.currentlyAllocated s)).
    rewrite (to_size_t_add_congr _ (nl - Arena.length last) _
               (to_size_t_idem (nl - Arena.length last))).
    rewrite Z.add_comm.
    rewrite (to_size_t_add_congr _ _ (nl - Arena.length last) Htotal).
    f_equal. lia.
  - rewrite H1 in Htile, Htotal. rewrite H2, Hca.
    apply arenas_tile_snoc in Htile. rewrite total_length_snoc in *.
    split; [apply arenas_tile_snoc; exact Htile|]. exact Htotal.
Qed.

(** X4: the arenas tile the file: in the fresh serializer, and after every
    [allocateWritable] and [commit] from a state where it held, whatever
    their outcome, each arena starts where the one before it ends, the
    first at offset 0, and [currentlyAllocated] is the sum of the lengths of
    the arenas (all as [size_t] values). *)
Theorem arenas_tile_the_file (sys : Sys) :
  (forall t0, tiled (FileSerializer.fresh t0)) /\
  (forall fuel bytes alignment st o st',
     FileSerializer.allocateWritable sys fuel bytes alignment st = (o, st') ->
     tiled st -> tiled st') /\
  (forall st o st',
     FileSerializer.commit sys st = (o, st') -> tiled st -> tiled st').
Proof.
  split; [intros t0; split; reflexivity|]. split.
  - intros fuel bytes alignment.
    apply (allocateWritable_respects (fun s s' => tiled s -> tiled s')); auto.
    intros s s'. apply arena_step_tiled.
  - apply (commit_respects (fun s s' => tiled s -> tiled s')); auto.
    intros s s'. apply arena_step_tiled.
Qed.

(** ** Growing after a commit *)

(** X5: [commit] cuts the file but leaves [currentlyAllocated] as it was.
    When that cut is a real one, the next request that does not fit in the
    last arena reaches [verifyLength], whose assertion on the length of the
    file fails: the call throws, and the arenas and [currentlyAllocated]
    stay as they were. *)
Theorem growth_after_commit_fails (sys : Sys) (st : FileSerializer.Itl)
    (l : list Arena.t) (last : Arena.t) (fuel : nat) (bytes alignment : Z) :
  FileSerializer.arenas st = l ++ [last] ->
  (forall t len, ftruncate sys t len = 0) ->
  (forall t, fstat sys t = 0) ->
  add64 (Arena.startOffset last) (Arena.currentOffset last)
  <> FileSerializer.currentlyAllocated st ->
  bytes <> 0 -> alignment <> 0 ->
  Arena.allocate bytes alignment last = (0, last) ->
  exists st',
    (FileSerializer.commit sys ;;
     FileSerializer.allocateWritable sys (S fuel) bytes alignment) st
    = (Throw (AssertionFailure "st.st_size == currentlyAllocated"), st') /\
    FileSerializer.arenas st' = FileSerializer.arenas st /\
    FileSerializer.currentlyAllocated st' = FileSerializer.currentlyAllocated st.
Proof.
  destruct st as [t fs ca ars].
  cbn [FileSerializer.arenas FileSerializer.currentlyAllocated].
  intros -> Htr Hst Hcut Hb Ha Hfull.
  assert (Hne : match l ++ [last] with [] => true | _ :: _ => false end = false)
    by (destruct l; reflexivity).
  erewrite bind_run.
  2:{ unfold FileSerializer.commit. step. rewrite Hne. step. step.
      rewrite Htr. cbn [Z.eqb]. norm_state. reflexivity. }
  unfold FileSerializer.allocateWritable, FileSerializer.allocateWritableImpl.
  destruct (Z.eqb_spec bytes 0); [contradiction|].
  unfold bind at 1. unfold bind at 1. unfold gets at 1. norm_state. rewrite Hne.
  unfold bind at 1. unfold ret at 1.
  unfold bind at 1. rewrite allocateLoop_unfold.
  erewrite bind_run by (apply back_allocate_run; exact Ha).
  rewrite Hfull. cbn [fst snd Z.eqb].
  unfold bind at 1. unfold FileSerializer.expandLastArena.
  unfold bind at 1. rewrite verifyLength_run, Hst. cbn [Z.eqb]. norm_state.
  destruct (Z.eqb_spec (add64 (Arena.startOffset last) (Arena.currentOffset last)) ca);
    [contradiction|].
  eexists. split; [reflexivity|]. split; reflexivity.
Qed.

Lemma growth_after_commit_fails_witness :
  let sys := cooperative_sys (fun _ => true) in
  let last := Arena.make 1099511627776 0 4194304 100 in
  let st := FileSerializer.make 0 4194304 4194304 [last] in
  exists st',
    (FileSerializer.commit sys ;;
     FileSerializer.allocateWritable sys 3 5000000 1) st
    = (Throw (AssertionFailure "st.st_size == currentlyAllocated"), st') /\
    FileSerializer.arenas st' = [last] /\
    FileSerializer.currentlyAllocated st' = 4194304.
Proof.
  intros sys last st.
  apply (growth_after_commit_fails sys st [] last 2 5000000 1); try reflexivity.
  - vm_compute. discriminate.
  - discriminate.
  - discriminate.
Defined.

(** ** The zip index: what was inserted is found *)

Lemma zip_lookups_children (a b : ZipStructuredReconstituter.Entry) (q : Path) :
  ZipStructuredReconstituter.children a = ZipStructuredReconstituter.children b ->
  q <> [] ->
  getRegionRecursive a q = getRegionRecursive b q.
Proof.
  intros Hch Hq. destruct q as [|n [|n' q']]; [contradiction| |]; cbn;
    unfold ZipStructuredReconstituter.zip_getRegion,
      ZipStructuredReconstituter.zip_getStructure; rewrite Hch; reflexivity.
Qed.

Lemma getRegionRecursive_insert_same (p : Path) :
  p <> [] ->
  forall (full : Path) (r : FrozenMemoryRegion.t)
         (root : ZipStructuredReconstituter.Entry),
    getRegionRecursive (ZipStructuredReconstituter.insert p full r root) p = Ok r.
Proof.
  induction p as [|e p IH]; intros Hp full r root; [contradiction|].
  destruct p as [|e2 p].
  - cbn. unfold ZipStructuredReconstituter.zip_getRegion. cbn.
    rewrite find_assign_same. reflexivity.
  - change (getRegionRecursive
              (ZipStructuredReconstituter.insert (e :: e2 :: p) full r root)
              (e :: e2 :: p))
      with (match ZipStructuredReconstituter.zip_getStructure
                    (ZipStructuredReconstituter.insert (e :: e2 :: p) full r root) e
            with
            | Ok s => getRegionRecursive s (e2 :: p)
            | Throw x => Throw x
            | Undefined => Undefined
            | OutOfFuel => OutOfFuel
            | Terminated => Terminated
            end).
    unfold ZipStructuredReconstituter.zip_getStructure.
    cbn [ZipStructuredReconstituter.insert ZipStructuredReconstituter.children].
    rewrite find_assign_same. apply IH. discriminate.
Qed.

Lemma getRegionRecursive_insert_other (p : Path) :
  forall (q full : Path) (r x : FrozenMemoryRegion.t)
         (root : ZipStructuredReconstituter.Entry),
    q <> p ->
    getRegionRecursive root q = Ok x ->
    getRegionRecursive (ZipStructuredReconstituter.insert p full r root) q = Ok x.
Proof.
  induction p as [|e p IH]; intros q full r x root Hne Hq.
  - assert (q <> []) by congruence.
    rewrite <- Hq. apply zip_lookups_children; [reflexivity|assumption].
  - destruct q as [|n q]; [discriminate|].
    cbn [ZipStructuredReconstituter.insert].
    set (child := match ZipStructuredReconstituter.find e
                          (ZipStructuredReconstituter.children root) with
                  | Some c => c
                  | None => ZipStructuredReconstituter.empty_entry
                  end).
    destruct (String.eqb_spec e n) as [->|Hen].
    + assert (Hqp : q <> p) by congruence.
      destruct q as [|n2 q].
      * (* the lookup stops at the node the insertion passes through *)
        destruct p as [|e2 p]; [contradiction|].
        cbn in Hq |- *.
        unfold ZipStructuredReconstituter.zip_getRegion in *.
        cbn [ZipStructuredReconstituter.children]. rewrite find_assign_same.
        unfold child.
        destruct (ZipStructuredReconstituter.find n
                    (ZipStructuredReconstituter.children root)) as [c|];
          [|discriminate].
        exact Hq.
      * change (getRegionRecursive root (n :: n2 :: q))
          with (match ZipStructuredReconstituter.zip_getStructure root n with
                | Ok s => getRegionRecursive s (n2 :: q)
                | Throw y => Throw y
                | Undefined => Undefined
                | OutOfFuel => OutOfFuel
                | Terminated => Terminated
                end) in Hq.
        match goal with
        | |- getRegionRecursive ?node (n :: n2 :: q) = _ =>
            change (getRegionRecursive node (n :: n2 :: q))
              with (match ZipStructuredReconstituter.zip_getStructure node n with
                    | Ok s => getRegionRecursive s (n2 :: q)
                    | Throw y => Throw y
                    | Undefined => Undefined
                    | OutOfFuel => OutOfFuel
                    | Terminated => Terminated
                    end)
        end.
        unfold ZipStructuredReconstituter.zip_getStructure in *.
        cbn [ZipStructuredReconstituter.children]. rewrite find_assign_same.
        unfold child.
        destruct (ZipStructuredReconstituter.find n
                    (ZipStructuredReconstituter.children root)) as [c|];
          [|discriminate].
        apply IH; assumption.
    + rewrite <- Hq. destruct q as [|n2 q].
      * cbn. unfold ZipStructuredReconstituter.zip_getRegion.
        cbn [ZipStructuredReconstituter.children].
        rewrite find_assign_other by exact Hen. reflexivity.
      * match goal with
        | |- getRegionRecursive ?node (n :: n2 :: q) = _ =>
            change (getRegionRecursive node (n :: n2 :: q))
              with (match ZipStructuredReconstituter.zip_getStructure node n with
                    | Ok s => getRegionRecursive s (n2 :: q)
                    | Throw y => Throw y
                    | Undefined => Undefined
                    | OutOfFuel => OutOfFuel
                    | Terminated => Terminated
                    end)
        end.
        change (getRegionRecursive root (n :: n2 :: q))
          with (match ZipStructuredReconstituter.zip_getStructure root n with
                | Ok s => getRegionRecursive s (n2 :: q)
                | Throw y => Throw y
                | Undefined => Undefined
                | OutOfFuel => OutOfFuel
                | Terminated => Terminated
                end).
        unfold ZipStructuredReconstituter.zip_getStructure.
        cbn [ZipStructuredReconstituter.children].
        rewrite find_assign_other by exact Hen. reflexivity.
Qed.

Lemma index_cons (container : FrozenMemoryRegion.t)
    (h : ZipStructuredReconstituter.Header)
    (rest : list ZipStructuredReconstituter.Header)
    (root0 : ZipStructuredReconstituter.Entry) :
  ZipStructuredReconstituter.index container (h :: rest) root0 =
  match member_region container h with
  | Ok r =>
      ZipStructuredReconstituter.index container rest
        (ZipStructuredReconstituter.insert
           (ZipStructuredReconstituter.header_path h)
           (ZipStructuredReconstituter.header_path h) r root0)
  | Throw e => Throw e
  | Undefined => Undefined
  | OutOfFuel => OutOfFuel
  | Terminated => Terminated
  end.
Proof.
  cbn [ZipStructuredReconstituter.index]. unfold member_region.
  destruct ((0 <=? _) && (_ <=? _)); [reflexivity|].
  destruct (ZipStructuredReconstituter.block_length h =? 0); reflexivity.
Qed.

Lemma index_preserves_lookup (container : FrozenMemoryRegion.t)
    (headers : list ZipStructuredReconstituter.Header) :
  forall (root0 root : ZipStructuredReconstituter.Entry) (q : Path)
         (x : FrozenMemoryRegion.t),
    ZipStructuredReconstituter.index container headers root0 = Ok root ->
    ~ In q (map ZipStructuredReconstituter.header_path headers) ->
    getRegionRecursive root0 q = Ok x ->
    getRegionRecursive root q = Ok x.
Proof.
  induction headers as [|h rest IH]; intros root0 root q x Hidx Hnot Hq.
  - cbn in Hidx. injection Hidx as <-. exact Hq.
  - rewrite index_cons in Hidx.
    destruct (member_region container h) as [r| | | |]; try discriminate.
    eapply IH; [exact Hidx| |].
    + intros Hin. apply Hnot. right. exact Hin.
    + apply getRegionRecursive_insert_other; [|exact Hq].
      intros ->. apply Hnot. left. reflexivity.
Qed.

(** X7: when the constructor has indexed an archive whose members have
    pairwise distinct, non-empty paths, looking a member up by its path
    returns exactly the slice of the container that was computed for it:
    later insertions do not disturb earlier ones. *)
Theorem index_lookup (container : FrozenMemoryRegion.t)
    (headers : list ZipStructuredReconstituter.Header)
    (root0 root : ZipStructuredReconstituter.Entry) :
  ZipStructuredReconstituter.index container headers root0 = Ok root ->
  NoDup (map ZipStructuredReconstituter.header_path headers) ->
  (forall h, In h headers -> ZipStructuredReconstituter.header_path h <> []) ->
  forall h, In h headers ->
    exists r,
      member_region container h = Ok r /\
      getRegionRecursive root (ZipStructuredReconstituter.header_path h) = Ok r.
Proof.
  revert root0 root.
  induction headers as [|h0 rest IH]; intros root0 root Hidx Hnodup Hne h Hin.
  - contradiction.
  - rewrite index_cons in Hidx.
    destruct (member_region container h0) as [r0| | | |] eqn:Hm; try discriminate.
    cbn in Hnodup. apply NoDup_cons_iff in Hnodup. destruct Hnodup as [Hfresh Hnodup].
    destruct Hin as [<-|Hin].
    + exists r0. split; [exact Hm|].
      eapply index_preserves_lookup; [exact Hidx|exact Hfresh|].
      apply getRegionRecursive_insert_same. apply Hne. left. reflexivity.
    + eapply IH; [exact Hidx|exact Hnodup| |exact Hin].
      intros h' Hh'. apply Hne. right. exact Hh'.
Qed.

Lemma index_lookup_witness :
  exists r,
    member_region scenario_container
      {| ZipStructuredReconstituter.header_path := ["b"; "c"]%string;
         ZipStructuredReconstituter.currentBlock := 4096 + 69;
         ZipStructuredReconstituter.block_length := 5 |} = Ok r /\
    getRegionRecursive
      (ZipStructuredReconstituter.insert ["b"; "d"]%string ["b"; "d"]%string
         (FrozenMemoryRegion.make 4096 0 null_shared_ptr)
         (ZipStructuredReconstituter.insert ["b"; "c"]%string ["b"; "c"]%string
            (FrozenMemoryRegion.make (4096 + 69) 5 null_shared_ptr)
            (ZipStructuredReconstituter.insert ["a"]%string ["a"]%string
               (FrozenMemoryRegion.make (4096 + 31) 5 null_shared_ptr)
               ZipStructuredReconstituter.empty_entry)))
      ["b"; "c"]%string = Ok r.
Proof.
  apply (index_lookup scenario_container scenario_headers
           ZipStructuredReconstituter.empty_entry).
  - vm_compute. reflexivity.
  - repeat constructor; cbn; intuition discriminate.
  - intros h [<-|[<-|[<-|[]]]]; discriminate.
  - right. left. reflexivity.
Defined.

(** ** The zip index: regions stay inside the container *)

Lemma entry_all_unfold (P : FrozenMemoryRegion.t -> Prop)
    (e : ZipStructuredReconstituter.Entry) :
  entry_all P e <->
  P (ZipStructuredReconstituter.region e) /\
  Forall (fun kv => entry_all P (snd kv)) (ZipStructuredReconstituter.children e).
Proof.
  destruct e as [p ch r]. cbn [entry_all ZipStructuredReconstituter.region
                               ZipStructuredReconstituter.children].
  assert (Hch :
    (fix children_all (l : list (PathElement * ZipStructuredReconstituter.Entry))
       : Prop :=
       match l with
       | [] => True
       | (_, c) :: rest => entry_all P c /\ children_all rest
       end) ch
    <-> Forall (fun kv => entry_all P (snd kv)) ch).
  { induction ch as [|[k c] ch IH].
    - split; [constructor|trivial].
    - rewrite Forall_cons_iff, IH. cbn [snd]. reflexivity. }
  rewrite Hch. reflexivity.
Qed.

Lemma find_Forall (Q : ZipStructuredReconstituter.Entry -> Prop) (n : PathElement)
    (l : list (PathElement * ZipStructuredReconstituter.Entry))
    (c : ZipStructuredReconstituter.Entry) :
  Forall (fun kv => Q (snd kv)) l ->
  ZipStructuredReconstituter.find n l = Some c -> Q c.
Proof.
  induction l as [|[k v] l IH]; intros Hall Hfind; [discriminate|].
  apply Forall_cons_iff in Hall. destruct Hall as [Hv Hl]. cbn in Hfind.
  destruct (String.eqb k n); [injection Hfind as <-; exact Hv|auto].
Qed.

Lemma assign_Forall (Q : ZipStructuredReconstituter.Entry -> Prop) (n : PathElement)
    (v : ZipStructuredReconstituter.Entry)
    (l : list (PathElement * ZipStructuredReconstituter.Entry)) :
  Forall (fun kv => Q (snd kv)) l -> Q v ->
  Forall (fun kv => Q (snd kv)) (ZipStructuredReconstituter.assign n v l).
Proof.
  induction l as [|[k u] l IH]; intros Hall Hv; cbn.
  - constructor; [exact Hv|constructor].
  - apply Forall_cons_iff in Hall. destruct Hall as [Hu Hl].
    destruct (String.eqb k n); constructor; auto.
Qed.

Lemma insert_entry_all (P : FrozenMemoryRegion.t -> Prop) (p : Path) :
  forall (full : Path) (r : FrozenMemoryRegion.t)
         (current : ZipStructuredReconstituter.Entry),
    P FrozenMemoryRegion.empty -> P r -> entry_all P current ->
    entry_all P (ZipStructuredReconstituter.insert p full r current).
Proof.
  induction p as [|e p IH]; intros full r current Hempty Hr Hcur;
    apply entry_all_unfold in Hcur; destruct Hcur as [Hreg Hch];
    apply entry_all_unfold; cbn.
  - split; assumption.
  - split; [exact Hreg|]. apply assign_Forall; [exact Hch|].
    apply IH; [exact Hempty|exact Hr|].
    destruct (ZipStructuredReconstituter.find e
                (ZipStructuredReconstituter.children current)) as [c|] eqn:Hfind.
    + exact (find_Forall (entry_all P) e _ c Hch Hfind).
    + apply entry_all_unfold. split; [exact Hempty|constructor].
Qed.

Lemma lookup_entry_all (P : FrozenMemoryRegion.t -> Prop) (q : Path) :
  forall (root : ZipStructuredReconstituter.Entry) (r : FrozenMemoryRegion.t),
    entry_all P root -> getRegionRecursive root q = Ok r -> P r.
Proof.
  induction q as [|n q IH]; intros root r Hall Hq; [discriminate|].
  apply entry_all_unfold in Hall. destruct Hall as [_ Hch].
  destruct q as [|n2 q].
  - cbn in Hq. unfold ZipStructuredReconstituter.zip_getRegion in Hq.
    destruct (ZipStructuredReconstituter.find n _) as [c|] eqn:Hfind;
      [|discriminate].
    injection Hq as <-.
    apply (find_Forall (entry_all P) n _ c Hch) in Hfind.
    apply entry_all_unfold in Hfind. apply Hfind.
  - change (getRegionRecursive root (n :: n2 :: q))
      with (match ZipStructuredReconstituter.zip_getStructure root n with
            | Ok s => getRegionRecursive s (n2 :: q)
            | Throw y => Throw y
            | Undefined => Undefined
            | OutOfFuel => OutOfFuel
            | Terminated => Terminated
            end) in Hq.
    unfold ZipStructuredReconstituter.zip_getStructure in Hq.
    destruct (ZipStructuredReconstituter.find n _) as [c|] eqn:Hfind;
      [|discriminate].
    apply (IH c r); [|exact Hq].
    exact (find_Forall (entry_all P) n _ c Hch Hfind).
Qed.

Lemma member_region_inside (container r : FrozenMemoryRegion.t)
    (h : ZipStructuredReconstituter.Header) :
  member_region container h = Ok r -> default_or_inside container r.
Proof.
  unfold member_region. intros H. right.
  set (offset := ZipStructuredReconstituter.currentBlock h
                 - FrozenMemoryRegion.data container) in *.
  assert (Hrange : exists start,
            0 <= start /\
            FrozenMemoryRegion.range container start
              (add64 start (ZipStructuredReconstituter.block_length h)) = Ok r).
  { destruct ((0 <=? offset)
              && (offset <=? FrozenMemoryRegion.length container)) eqn:Hchk.
    - apply andb_true_iff in Hchk. destruct Hchk as [H0 _].
      apply Z.leb_le in H0. exists offset. auto.
    - destruct (ZipStructuredReconstituter.block_length h =? 0);
        [|discriminate]. exists 0. split; [lia|exact H]. }
  destruct Hrange as (start & Hstart & Hrange).
  unfold FrozenMemoryRegion.range in Hrange.
  set (e := add64 start (ZipStructuredReconstituter.block_length h)) in *.
  assert (He : 0 <= e < size_t_modulus) by apply to_size_t_range.
  destruct (Z.ltb_spec e start); [discriminate|].
  destruct (Z.ltb_spec (FrozenMemoryRegion.length container) e); [discriminate|].
  injection Hrange as <-. cbn.
  unfold sub64. rewrite to_size_t_small by lia. repeat split; lia.
Qed.

(** X8: every region that a lookup by path returns from the index of a
    container is a span of that container carrying the container's handle,
    or is the default region (of a node that exists only as a parent of
    members): the index never hands out memory outside the container. *)
Theorem index_regions_inside_container (container : FrozenMemoryRegion.t)
    (headers : list ZipStructuredReconstituter.Header)
    (root : ZipStructuredReconstituter.Entry) (q : Path)
    (r : FrozenMemoryRegion.t) :
  ZipStructuredReconstituter.index container headers
    ZipStructuredReconstituter.empty_entry = Ok root ->
  getRegionRecursive root q = Ok r ->
  default_or_inside container r.
Proof.
  intros Hidx Hq.
  apply (lookup_entry_all (default_or_inside container) q root r); [|exact Hq].
  assert (Hgen : forall hs root0 root1,
            entry_all (default_or_inside container) root0 ->
            ZipStructuredReconstituter.index container hs root0 = Ok root1 ->
            entry_all (default_or_inside container) root1).
  { induction hs as [|h hs IH]; intros root0 root1 Hall Hrun.
    - cbn in Hrun. injection Hrun as <-. exact Hall.
    - rewrite index_cons in Hrun.
      destruct (member_region container h) as [r0| | | |] eqn:Hm; try discriminate.
      eapply IH; [|exact Hrun].
      apply insert_entry_all; [left; reflexivity| |exact Hall].
      exact (member_region_inside container r0 h Hm). }
  apply (Hgen headers ZipStructuredReconstituter.empty_entry root); [|exact Hidx].
  cbn. split; [left; reflexivity|exact I].
Qed.

Lemma index_regions_inside_container_witness :
  default_or_inside scenario_container
    (FrozenMemoryRegion.make (4096 + 69) 5 null_shared_ptr).
Proof.
  apply (index_regions_inside_container scenario_container scenario_headers
           (ZipStructuredReconstituter.insert ["b"; "d"]%string ["b"; "d"]%string
              (FrozenMemoryRegion.make 4096 0 null_shared_ptr)
              (ZipStructuredReconstituter.insert ["b"; "c"]%string ["b"; "c"]%string
                 (FrozenMemoryRegion.make (4096 + 69) 5 null_shared_ptr)
                 (ZipStructuredReconstituter.insert ["a"]%string ["a"]%string
                    (FrozenMemoryRegion.make (4096 + 31) 5 null_shared_ptr)
                    ZipStructuredReconstituter.empty_entry)))
           ["b"; "c"]%string).
  - vm_compute. reflexivity.
  - vm_compute. reflexivity.
Defined.

(** ** The directory and the lookups *)

Lemma find_some_iff_in (n : PathElement)
    (l : list (PathElement * ZipStructuredReconstituter.Entry)) :
  (exists e, ZipStructuredReconstituter.find n l = Some e) <-> In n (map fst l).
Proof.
  induction l as [|[k v] l IH]; cbn.
  - split; [intros [e He]; discriminate|contradiction].
  - destruct (String.eqb_spec k n) as [->|Hkn].
    + split; [left; reflexivity|eauto].
    + rewrite IH. split; [auto|intros [Hk|Hin]; [contradiction|exact Hin]].
Qed.

(** X10: what [getDirectory] lists is what the lookups accept: a name is in
    the directory of a node exactly when [getStructure] returns a
    sub-structure for it, and exactly when [getRegion] returns a region for
    it, whether the child has children, a payload, both or neither. *)
Theorem directory_agrees_with_lookups
    (root : ZipStructuredReconstituter.Entry) (n : PathElement) :
  (In n (map ZipStructuredReconstituter.name
             (ZipStructuredReconstituter.getDirectory root)) <->
   exists e, ZipStructuredReconstituter.zip_getStructure root n = Ok e) /\
  (In n (map ZipStructuredReconstituter.name
             (ZipStructuredReconstituter.getDirectory root)) <->
   exists r, ZipStructuredReconstituter.zip_getRegion root n = Ok r).
Proof.
  assert (Hnames : map ZipStructuredReconstituter.name
                     (ZipStructuredReconstituter.getDirectory root)
                   = map fst (ZipStructuredReconstituter.children root)).
  { unfold ZipStructuredReconstituter.getDirectory. rewrite map_map.
    apply map_ext. reflexivity. }
  rewrite Hnames, <- find_some_iff_in.
  unfold ZipStructuredReconstituter.zip_getStructure,
    ZipStructuredReconstituter.zip_getRegion.
  destruct (ZipStructuredReconstituter.find n _) as [c|]; split; split;
    try (intros [x Hx]; discriminate); eauto.
Qed.

(** ** Recursive lookups, step by step *)

Lemma getRegionRecursive_cons (R : Type) (I : StructuredReconstituter R)
    (this : R) (el : PathElement) (rest : Path) :
  rest <> [] ->
  getRegionRecursive this (el :: rest) =
  match getStructure this el with
  | Ok r => getRegionRecursive r rest
  | Throw e => Throw e
  | Undefined => Undefined
  | OutOfFuel => OutOfFuel
  | Terminated => Terminated
  end.
Proof. destruct rest; [contradiction|reflexivity]. Qed.

(** X11: on every reconstituter, looking a region up by the path [p ++ n]
    is looking [n] up with [getRegion] at the structure that
    [getStructureRecursive] returns for [p] (at the reconstituter itself when
    [p] is empty), and an error on the way is the error of the lookup;
    for a non-empty [p], [getStructureRecursive] never returns null. *)
Theorem recursive_lookups_compose (R : Type) (I : StructuredReconstituter R)
    (p : Path) (n : PathElement) :
  (forall this : R,
     getRegionRecursive this (p ++ [n]) =
     match getStructureRecursive this p with
     | Ok (Some s) => getRegion s n
     | Ok None => getRegion this n
     | Throw e => Throw e
     | Undefined => Undefined
     | OutOfFuel => OutOfFuel
     | Terminated => Terminated
     end) /\
  (forall (this : R) res,
     p <> [] -> getStructureRecursive this p = Ok res -> res <> None).
Proof.
  split.
  - induction p as [|e p IH]; intros this; [reflexivity|].
    change ((e :: p) ++ [n]) with (e :: (p ++ [n])).
    rewrite getRegionRecursive_cons by (destruct p; discriminate).
    unfold getStructureRecursive. cbn [getStructureRecursive_loop].
    destruct (getStructure this e) as [r| | | |]; try reflexivity.
    rewrite IH. unfold getStructureRecursive.
    destruct p as [|e2 p]; [reflexivity|].
    change (getStructureRecursive_loop r None (e2 :: p))
      with (getStructureRecursive_loop r (Some r) (e2 :: p)).
    destruct (getStructureRecursive_loop r (Some r) (e2 :: p))
      as [[s|]| | | |] eqn:Hloop; try reflexivity.
    exfalso.
    apply (getStructureRecursive_loop_some R I (e2 :: p) r (Some r) None Hloop);
      [discriminate|reflexivity].
  - intros this res Hp Hrun.
    exact (getStructureRecursive_loop_some R I p this None res Hrun Hp).
Qed.

(** ** Members written through sub-structures *)

Lemma zip_structure_at_path (names : Path) :
  ZipStructuredSerializer.path (zip_structure_at names) = names.
Proof.
  unfold zip_structure_at.
  assert (Hgen : forall itl,
            ZipStructuredSerializer.path (fold_left zip_newStructure names itl)
            = ZipStructuredSerializer.path itl ++ names).
  { induction names as [|x names IH]; intros itl; cbn.
    - now rewrite app_nil_r.
    - rewrite IH. cbn. unfold path_append. now rewrite <- app_assoc. }
  apply Hgen.
Qed.

(** X12: [addRegion(region, name)] on the sub-structure reached from the
    root through [newStructure] for each of [names] writes one member to the
    archive: it is named [names ++ name], its size is the length of the
    region and its payload is the bytes of the region, provided the
    allocation and the two libarchive calls succeed. *)
Theorem addRegion_writes_member (sys : Sys) (w : ZipStructuredSerializer.World)
    (names : Path) (region : FrozenMemoryRegion.t) (name : PathElement)
    (mem : Z) :
  let t0 := ZipStructuredSerializer.now w in
  let src := FrozenMemoryRegion.bytes (ZipStructuredSerializer.memory w) region in
  let n := Z.of_nat (List.length src) in
  posix_memalign sys t0 pointer_size n = (0, mem) ->
  archive_write_header sys (S t0) = 0 ->
  archive_write_data sys (S (S t0)) n = n ->
  exists w',
    ZipStructuredSerializer.addRegion sys (zip_structure_at names) region name w
    = (Ok tt, w') /\
    ZipStructuredSerializer.archive w' =
    ZipStructuredSerializer.archive w ++
      [{| ZipStructuredSerializer.pathname := names ++ [name];
          ZipStructuredSerializer.size := n;
          ZipStructuredSerializer.perm := 288;
          ZipStructuredSerializer.payload := src |}].
Proof.
  intros t0 src n Ha Hh Hd.
  destruct (stored_entry sys w src mem Ha Hh Hd (zip_structure_at names) name)
    as (w' & Hrun & Harch).
  exists w'. split; [exact Hrun|].
  rewrite Harch, zip_structure_at_path. reflexivity.
Qed.

Lemma addRegion_writes_member_witness :
  let sys := cooperative_sys (fun _ => true) in
  let w := {| ZipStructuredSerializer.now := 0%nat;
              ZipStructuredSerializer.memory :=
                fun p => if p =? 4096 then Byte.x68 else Byte.x69;
              ZipStructuredSerializer.archive := [] |} in
  exists w',
    ZipStructuredSerializer.addRegion sys
      (zip_structure_at ["cols"; "c0"]%string)
      (FrozenMemoryRegion.make 4096 2 null_shared_ptr) "values"%string w
    = (Ok tt, w') /\
    ZipStructuredSerializer.archive w' =
    [] ++
      [{| ZipStructuredSerializer.pathname := ["cols"; "c0"; "values"]%string;
          ZipStructuredSerializer.size := 2;
          ZipStructuredSerializer.perm := 288;
          ZipStructuredSerializer.payload := [Byte.x68; Byte.x69] |}].
Proof.
  intros sys w.
  apply (addRegion_writes_member sys w ["cols"; "c0"]%string
           (FrozenMemoryRegion.make 4096 2 null_shared_ptr) "values"%string
           32768); reflexivity.
Defined.

(** X13: when the allocation inside [addRegion] fails, the exception leaves
    the function, but the entry serializer is destroyed on the way out and
    its destructor still writes a member: the archive gains an empty member
    under the name of the entry. *)
Theorem addRegion_allocation_failure (sys : Sys)
    (w : ZipStructuredSerializer.World) (this : ZipStructuredSerializer.Itl)
    (region : FrozenMemoryRegion.t) (name : PathElement) :
  let t0 := ZipStructuredSerializer.now w in
  let n := Z.of_nat (List.length
             (FrozenMemoryRegion.bytes (ZipStructuredSerializer.memory w) region)) in
  fst (posix_memalign sys t0 pointer_size n) <> 0 ->
  archive_write_header sys (S t0) = 0 ->
  archive_write_data sys (S (S t0)) 0 = 0 ->
  exists w',
    ZipStructuredSerializer.addRegion sys this region name w
    = (Throw (HttpReturnException 400 "Error allocating writable memory"), w') /\
    ZipStructuredSerializer.archive w' =
    ZipStructuredSerializer.archive w ++
      [{| ZipStructuredSerializer.pathname :=
            path_append (ZipStructuredSerializer.path this) name;
          ZipStructuredSerializer.size := 0;
          ZipStructuredSerializer.perm := 288;
          ZipStructuredSerializer.payload := [] |}].
Proof.
  intros t0 n Hfail Hh Hd.
  unfold ZipStructuredSerializer.addRegion, ZipStructuredSerializer.with_entry,
    ZipStructuredSerializer.entry_store,
    ZipStructuredSerializer.entry_allocateWritable, bind, gets,
    MemorySerializer.allocateWritable.
  change (1 <? pointer_size) with true. cbv iota. fold t0 n.
  destruct (posix_memalign sys t0 pointer_size n) as [res mem].
  cbn [fst] in Hfail. destruct (Z.eqb_spec res 0); [contradiction|].
  cbn [negb].
  unfold ZipStructuredSerializer.entry_destroy, ZipStructuredSerializer.writeEntry.
  cbn [ZipStructuredSerializer.newEntry ZipStructuredSerializer.frozen
       ZipStructuredSerializer.itl ZipStructuredSerializer.entryName
       ZipStructuredSerializer.tick ZipStructuredSerializer.now
       FrozenMemoryRegion.empty FrozenMemoryRegion.length].
  fold t0. rewrite Hh. cbn [Z.eqb negb]. rewrite Hd. cbn [Z.eqb negb].
  eexists. split; reflexivity.
Qed.

Lemma addRegion_allocation_failure_witness :
  let sys := {| page_size := 4096;
                ftruncate := fun _ _ => 0;
                fstat := fun _ => 0;
                mmap := fun _ _ _ => MAP_FAILED;
                mremap := fun _ _ _ _ => MAP_FAILED;
                posix_memalign := fun _ _ _ => (12, 0);
                archive_write_header := fun _ => 0;
                archive_write_data := fun _ n => n;
                vector_reallocates := fun _ => true |} in
  let w := {| ZipStructuredSerializer.now := 0%nat;
              ZipStructuredSerializer.memory := fun _ => Byte.x00;
              ZipStructuredSerializer.archive := [] |} in
  exists w',
    ZipStructuredSerializer.addRegion sys ZipStructuredSerializer.BaseItl
      (FrozenMemoryRegion.make 4096 2 null_shared_ptr) "a"%string w
    = (Throw (HttpReturnException 400 "Error allocating writable memory"), w') /\
    ZipStructuredSerializer.archive w' =
    [] ++
      [{| ZipStructuredSerializer.pathname := path_append [] "a"%string;
          ZipStructuredSerializer.size := 0;
          ZipStructuredSerializer.perm := 288;
          ZipStructuredSerializer.payload := [] |}].
Proof.
  intros sys w.
  apply (addRegion_allocation_failure sys w ZipStructuredSerializer.BaseItl
           (FrozenMemoryRegion.make 4096 2 null_shared_ptr) "a"%string);
    [discriminate|reflexivity|reflexivity].
Defined.

(** ** Mapping a file *)

Lemma land_page_mask (k x : Z) :
  0 <= k < 64 -> 0 <= x < size_t_modulus ->
  Z.land x (page_mask (2 ^ k)) = x - x mod 2 ^ k.
Proof.
  intros Hk Hx. unfold page_mask.
  assert (Hpow : 0 < 2 ^ k <= 2 ^ 63).
  { split; [apply Z.pow_pos_nonneg; lia|apply Z.pow_le_mono_r; lia]. }
  assert (H63 : 2 ^ 63 = 9223372036854775808) by reflexivity.
  assert (HM : size_t_modulus = 18446744073709551616) by reflexivity.
  assert (Hones : sub64 (2 ^ k) 1 = Z.ones k).
  { unfold sub64. rewrite to_size_t_small by lia. rewrite Z.ones_equiv. lia. }
  rewrite Hones. unfold to_size_t, size_t_modulus.
  rewrite <- (Z.land_ones _ 64) by lia.
  rewrite Z.land_assoc, (Z.land_comm x), <- Z.land_assoc.
  rewrite (Z.land_ones x 64) by lia.
  rewrite (Z.mod_small x) by (unfold size_t_modulus in Hx; lia).
  rewrite Z.land_comm, <- Z.ldiff_land, Z.ldiff_ones_r by lia.
  rewrite Z.shiftl_mul_pow2, Z.shiftr_div_pow2 by lia.
  rewrite (Z.mod_eq x (2 ^ k)) by lia. lia.
Qed.

(** X14: with pages of [2^k] bytes, [mapFile] on a [file] url that opens,
    asked for [length] bytes from [startOffset] with [startOffset <= length]
    (so that the subtraction in the code does not wrap around), maps whole
    pages from the page that holds [startOffset]: the offset given to [mmap] is
    [startOffset] rounded down to a page, the length given to [mmap] is
    [length] minus that offset rounded up to a page, and the region returned
    has [length] bytes and starts [startOffset mod 2^k] bytes into the
    mapping, at the byte of the file at [startOffset].  When [startOffset]
    is 0 the mapping covers the region. *)
Theorem mapFile_maps_whole_pages (k : Z) (fsys : FileSystem) (filename : Url)
    (startOffset length : Z) :
  0 <= k < 64 ->
  scheme filename = "file"%string ->
  open_readonly fsys (url_path filename) <> -1 ->
  0 <= startOffset -> startOffset <= length ->
  length + 2 ^ k < 2 ^ 63 ->
  let ps := 2 ^ k in
  let fd := open_readonly fsys (url_path filename) in
  let mapOffset := startOffset - startOffset mod ps in
  let mapLength := ps * ((length - mapOffset + ps - 1) / ps) in
  let addr := mmap_readonly fsys mapLength fd mapOffset in
  addr <> MAP_FAILED ->
  mapFile ps fsys filename startOffset length =
  Ok {| FrozenMemoryRegion.data := addr + startOffset mod ps;
        FrozenMemoryRegion.length := length;
        FrozenMemoryRegion.handle :=
          {| get := addr; deleter := Some (MunmapDeleter mapLength) |} |} /\
  mapOffset mod ps = 0 /\
  mapOffset <= startOffset < mapOffset + ps /\
  length - mapOffset <= mapLength < length - mapOffset + ps /\
  (startOffset = 0 -> length <= mapLength).
Proof.
  intros Hk Hscheme Hopen Hstart Hlen Hfit ps fd mapOffset mapLength addr Hmap.
  assert (Hpow : 0 < ps <= 2 ^ 63).
  { split; [apply Z.pow_pos_nonneg; lia|apply Z.pow_le_mono_r; lia]. }
  assert (H63 : 2 ^ 63 = 9223372036854775808) by reflexivity.
  assert (HM : size_t_modulus = 18446744073709551616) by reflexivity.
  pose proof (Z.mod_pos_bound startOffset ps ltac:(lia)) as Hmod.
  assert (HmapOffset : Z.land startOffset (page_mask ps) = mapOffset)
    by (apply land_page_mask; lia).
  set (Y := length - mapOffset + ps - 1).
  assert (HY : sub64 (add64 (sub64 length mapOffset) ps) 1 = Y).
  { unfold sub64 at 2. rewrite (to_size_t_small (length - mapOffset))
      by (unfold mapOffset; lia).
    unfold add64. rewrite to_size_t_small by (unfold mapOffset; lia).
    unfold sub64. apply to_size_t_small. unfold Y, mapOffset. lia. }
  assert (HYr : 0 <= Y < size_t_modulus) by (unfold Y, mapOffset; lia).
  assert (HmapLength : Z.land Y (page_mask ps) = mapLength).
  { unfold ps. rewrite land_page_mask by (fold ps; lia). fold ps.
    unfold mapLength. fold Y. rewrite (Z.mod_eq Y ps) by lia. lia. }
  split.
  - unfold mapFile. rewrite Hscheme. cbn [String.eqb Ascii.eqb Bool.eqb negb].
    fold fd. destruct (Z.eqb_spec fd (-1)); [contradiction|].
    destruct (Z.eqb_spec length (-1)); [lia|].
    rewrite HmapOffset, HY, HmapLength. fold addr.
    destruct (Z.eqb_spec addr MAP_FAILED); [contradiction|].
    rewrite to_size_t_small by lia. reflexivity.
  - pose proof (Z.mul_div_le Y ps ltac:(lia)) as Hlo.
    pose proof (Z.mul_succ_div_gt Y ps ltac:(lia)) as Hhi.
    fold mapLength in Hlo. unfold Z.succ in Hhi.
    replace (ps * (Y / ps + 1)) with (mapLength + ps) in Hhi
      by (unfold mapLength; fold Y; lia).
    assert (HmapOffset0 : mapOffset mod ps = 0).
    { unfold mapOffset. rewrite (Z.mod_eq startOffset ps) by lia.
      replace (startOffset - (startOffset - ps * (startOffset / ps)))
        with (startOffset / ps * ps) by lia.
      apply Z.mod_mul. lia. }
    split; [exact HmapOffset0|]. split; [unfold mapOffset; lia|].
    split.
    + split; [|unfold Y in Hlo; lia].
      (* mapLength is the least multiple of ps that is at least the rest *)
      assert (Hge : Y - (ps - 1) <= mapLength).
      { unfold Y in *. lia. }
      unfold Y in Hge. lia.
    + intros H0. unfold Y, mapOffset in Hhi. rewrite H0 in *.
      rewrite Z.mod_0_l in * by lia. lia.
Qed.

Lemma mapFile_maps_whole_pages_witness :
  let fsys := {| open_readonly := fun _ => 3;
                 fstat_size := fun _ => (0, 10000);
                 mmap_readonly := fun _ _ _ => 1099511627776 |} in
  mapFile (2 ^ 12) fsys {| scheme := "file"; url_path := "/tmp/t.zip" |} 0 10000 =
  Ok {| FrozenMemoryRegion.data := 1099511627776 + 0 mod 2 ^ 12;
        FrozenMemoryRegion.length := 10000;
        FrozenMemoryRegion.handle :=
          {| get := 1099511627776;
             deleter := Some (MunmapDeleter
                                (2 ^ 12 * ((10000 - (0 - 0 mod 2 ^ 12) + 2 ^ 12 - 1)
                                           / 2 ^ 12))) |} |}.
Proof.
  intros fsys.
  apply (mapFile_maps_whole_pages 12 fsys
           {| scheme := "file"; url_path := "/tmp/t.zip" |} 0 10000);
    cbn; try lia; try reflexivity; discriminate.
Defined.

(** ** Sequences of seeks *)

(** X15: after any sequence of seeks with valid directions on the stream
    buffer of a region, the get area still spans exactly the region (its
    beginning and end never move, the region is the same), and the read
    position is the one obtained by applying the seeks one after the other:
    [off] from the beginning, [L + off] from the end, the position before
    plus [off] narrowed to [int] for a relative seek. *)
Theorem seeks_keep_the_get_area (r : FrozenMemoryRegion.t)
    (requests : list (Z * seekdir)) :
  forallb (fun q => valid_dir (snd q)) requests = true ->
  exists h,
    seek_all requests (ReconstituteStreamHandler.create r) = Ok h /\
    ReconstituteStreamHandler.eback h = FrozenMemoryRegion.data r /\
    ReconstituteStreamHandler.egptr h
    = FrozenMemoryRegion.data r + FrozenMemoryRegion.length r /\
    ReconstituteStreamHandler.region h = r /\
    ReconstituteStreamHandler.position h
    = fold_left (seek_target (FrozenMemoryRegion.length r)) requests 0.
Proof.
  intros Hvalid.
  set (L := FrozenMemoryRegion.length r).
  set (good := fun h : ReconstituteStreamHandler.t =>
         ReconstituteStreamHandler.eback h = FrozenMemoryRegion.data r /\
         ReconstituteStreamHandler.egptr h = FrozenMemoryRegion.data r + L /\
         ReconstituteStreamHandler.start h = FrozenMemoryRegion.data r /\
         ReconstituteStreamHandler.end_ h = FrozenMemoryRegion.data r + L /\
         ReconstituteStreamHandler.region h = r).
  assert (Hgen : forall h0, good h0 ->
            exists h, seek_all requests h0 = Ok h /\ good h /\
                      ReconstituteStreamHandler.position h
                      = fold_left (seek_target L) requests
                                  (ReconstituteStreamHandler.position h0)).
  { induction requests as [|[off dir] rest IH]; intros h0 Hgood.
    - exists h0. repeat split; try apply Hgood.
    - cbn [forallb snd] in Hvalid. apply andb_true_iff in Hvalid.
      destruct Hvalid as [Hdir Hrest]. specialize (IH Hrest).
      destruct h0 as [eb gp eg st en rg].
      destruct Hgood as (Heb & Heg & Hst & Hen & Hrg). cbn in Heb, Heg, Hst, Hen, Hrg.
      subst eb eg st en rg.
      destruct dir as [| | |v]; [| | |discriminate];
        cbn [seek_all ReconstituteStreamHandler.seekoff fold_left];
        match goal with
        | |- exists h, seek_all rest ?h1 = _ /\ _ =>
            destruct (IH h1) as (h & Hrun & Hgood' & Hpos);
              [unfold good; cbn; repeat split; reflexivity|];
              exists h; split; [exact Hrun|]; split; [exact Hgood'|];
              rewrite Hpos; f_equal;
              unfold ReconstituteStreamHandler.position, seek_target; cbn; lia
        end. }
  destruct (Hgen (ReconstituteStreamHandler.create r)) as (h & Hrun & Hgood & Hpos).
  { unfold good. cbn. repeat split; reflexivity. }
  exists h. split; [exact Hrun|].
  destruct Hgood as (Heb & Heg & _ & _ & Hrg).
  repeat split; try assumption.
  rewrite Hpos. unfold ReconstituteStreamHandler.position. cbn.
  f_equal. lia.
Qed.

Lemma seeks_keep_the_get_area_witness :
  exists h,
    seek_all [(4, seek_beg); (3, seek_cur); (-2, seek_end)]
      (ReconstituteStreamHandler.create
         (FrozenMemoryRegion.make 4096 10 null_shared_ptr)) = Ok h /\
    ReconstituteStreamHandler.eback h = 4096 /\
    ReconstituteStreamHandler.egptr h = 4096 + 10 /\
    ReconstituteStreamHandler.region h
    = FrozenMemoryRegion.make 4096 10 null_shared_ptr /\
    ReconstituteStreamHandler.position h
    = fold_left (seek_target 10) [(4, seek_beg); (3, seek_cur); (-2, seek_end)] 0.
Proof.
  apply (seeks_keep_the_get_area
           (FrozenMemoryRegion.make 4096 10 null_shared_ptr)
           [(4, seek_beg); (3, seek_cur); (-2, seek_end)]).
  reflexivity.
Defined.

(** ** Copying a region into the heap serializer *)

Lemma memcpy_outside (src : list Byte.byte) : forall mem dst p,
  p < dst \/ dst + Z.of_nat (List.length src) <= p ->
  memcpy mem dst src p = mem p.
Proof.
  induction src as [|b src IH]; intros mem dst p Hp; [reflexivity|].
  cbn [memcpy]. cbn [List.length] in Hp. rewrite IH by lia.
  destruct (Z.eqb_spec p dst); [lia|reflexivity].
Qed.

Lemma read_bytes_ext (m1 m2 : Memory) (n : nat) : forall p,
  (forall q, p <= q < p + Z.of_nat n -> m1 q = m2 q) ->
  read_bytes m1 p n = read_bytes m2 p n.
Proof.
  induction n as [|n IH]; intros p H; [reflexivity|].
  cbn [read_bytes]. rewrite (H p) by lia. f_equal. apply IH.
  intros q Hq. apply H. lia.
Qed.

(** X16: [copy] on the heap-backed serializer returns, when the allocation
    succeeds, a frozen region of the same length that lies in the new block
    and whose bytes are the bytes of the source; a source that does not
    overlap the new block still reads as before. *)
Theorem copy_preserves_bytes (sys : Sys) (w : HeapWorld)
    (region : FrozenMemoryRegion.t) (block : Z) :
  0 <= FrozenMemoryRegion.length region ->
  posix_memalign sys (heap_now w) pointer_size (FrozenMemoryRegion.length region)
  = (0, block) ->
  exists copied w',
    MemorySerializer_copy sys region w = (Ok copied, w') /\
    FrozenMemoryRegion.data copied = block /\
    FrozenMemoryRegion.length copied = FrozenMemoryRegion.length region /\
    get (FrozenMemoryRegion.handle copied) = block /\
    FrozenMemoryRegion.bytes (heap_memory w') copied
    = FrozenMemoryRegion.bytes (heap_memory w) region /\
    (FrozenMemoryRegion.data region + FrozenMemoryRegion.length region <= block \/
     block + FrozenMemoryRegion.length region <= FrozenMemoryRegion.data region ->
     FrozenMemoryRegion.bytes (heap_memory w') region
     = FrozenMemoryRegion.bytes (heap_memory w) region).
Proof.
  intros Hlen Halloc. unfold MemorySerializer_copy, MemorySerializer.allocateWritable.
  change (1 <? pointer_size) with true. cbv iota. rewrite Halloc. cbn [Z.eqb negb].
  do 2 eexists. split; [reflexivity|].
  cbn [heap_memory MutableMemoryRegion_freeze MutableMemoryRegion.owner
       MemorySerializer.freeze MutableMemoryRegion.data MutableMemoryRegion.length
       MutableMemoryRegion.handle FrozenMemoryRegion.data FrozenMemoryRegion.length
       FrozenMemoryRegion.handle get].
  repeat split.
  - unfold FrozenMemoryRegion.bytes at 1, MemorySerializer.freeze.
    cbn [FrozenMemoryRegion.data FrozenMemoryRegion.length
         MutableMemoryRegion.data MutableMemoryRegion.length].
    set (src := FrozenMemoryRegion.bytes (heap_memory w) region).
    assert (Hsrc : Z.to_nat (FrozenMemoryRegion.length region) = List.length src)
      by (unfold src, FrozenMemoryRegion.bytes; now rewrite read_bytes_length).
    rewrite Hsrc. apply read_bytes_memcpy.
  - intros Hapart. unfold FrozenMemoryRegion.bytes at 1 3.
    apply read_bytes_ext. intros q Hq. apply memcpy_outside.
    unfold FrozenMemoryRegion.bytes. rewrite read_bytes_length. lia.
Qed.

Lemma copy_preserves_bytes_witness :
  let sys := cooperative_sys (fun _ => true) in
  let w := {| heap_now := 0%nat;
              heap_memory := fun p => if p =? 100 then Byte.x68 else Byte.x69 |} in
  exists copied w',
    MemorySerializer_copy sys (FrozenMemoryRegion.make 100 2 null_shared_ptr) w
    = (Ok copied, w') /\
    FrozenMemoryRegion.data copied = 32768 /\
    FrozenMemoryRegion.length copied = 2 /\
    FrozenMemoryRegion.bytes (heap_memory w') copied = [Byte.x68; Byte.x69].
Proof.
  intros sys w.
  destruct (copy_preserves_bytes sys w
              (FrozenMemoryRegion.make 100 2 null_shared_ptr) 32768)
    as (copied & w' & Hrun & Hdata & Hlen & _ & Hbytes & _).
  - cbn. lia.
  - reflexivity.
  - exists copied, w'. repeat split; assumption.
Defined.

(** ** The size of a new arena *)

(** X6: on a cooperative system, from a quiescent state, for a request and
    an allocated total that both stay below [2^64] when a page is added,
    [createNewArena] emplaces one arena at the back of the vector (which
    moves the arenas before it if the vector is full); the new arena starts
    at the end of the file and its length is a whole number of pages, at
    least 1024 pages, at least the size asked for, and at least an eighth of
    what was allocated so far (up to seven pages); the file grows by that
    length. *)
Theorem new_arena_size (sys : Sys) (t : nat) (ca : Z) (ars : list Arena.t)
    (req : Z) :
  cooperative sys ->
  0 <= req -> req + page_size sys < size_t_modulus ->
  0 <= ca -> ca + page_size sys < size_t_modulus ->
  exists addr len,
    FileSerializer.createNewArena sys req (FileSerializer.make t ca ca ars) =
    (Ok tt,
     FileSerializer.make (S (S (S (S t)))) (add64 ca len) (add64 ca len)
       (FileSerializer.emplaced sys ars (Arena.create addr ca len))) /\
    len mod page_size sys = 0 /\
    1024 * page_size sys <= len < size_t_modulus /\
    req <= len /\
    ca <= 8 * len + 7 * page_size sys.
Proof.
  intros Hcoop Hreq Hfit Hca Hcafit.
  pose proof Hcoop as (Hps & _).
  exists (mmap sys (S (S t)) (new_arena_length sys ca req) ca),
         (new_arena_length sys ca req).
  split; [apply createNewArena_run; exact Hcoop|].
  destruct (new_arena_length_bounds sys ca req Hps Hreq Hfit) as [[Hlo Hhi] Hpos].
  unfold new_arena_length in *.
  set (ps := page_size sys) in *.
  assert (H32 : 2 ^ 32 = 4294967296) by reflexivity.
  assert (HM : size_t_modulus = 18446744073709551616) by reflexivity.
  assert (HX : sub64 (add64 ca ps) 1 = ca + ps - 1).
  { unfold add64. rewrite (to_size_t_small (ca + ps)) by lia.
    unfold sub64. apply to_size_t_small. lia. }
  rewrite HX in *.
  set (P := sub64 (add64 req ps) 1 / ps) in *.
  set (N := (ca + ps - 1) / ps). set (Q := N / 8).
  fold N Q in Hlo, Hhi, Hpos.
  set (pages := Z.max (Z.max P 1024) Q) in *.
  assert (HN0 : 0 <= N) by (apply Z.div_pos; lia).
  assert (HN1 : ca + ps - 1 < ps * Z.succ N) by (apply Z.mul_succ_div_gt; lia).
  assert (HN2 : ps * N <= ca + ps - 1) by (apply Z.mul_div_le; lia).
  assert (HQ0 : 0 <= Q) by (apply Z.div_pos; lia).
  assert (HQ1 : N < 8 * Z.succ Q) by (apply Z.mul_succ_div_gt; lia).
  assert (HQ2 : 8 * Q <= N) by (apply Z.mul_div_le; lia).
  assert (Hpages : 1024 <= pages /\ Q <= pages) by (unfold pages; lia).
  assert (Hnowrap : pages * ps < size_t_modulus).
  { assert (HPps : P * ps <= req + ps).
    { unfold P. unfold add64. rewrite (to_size_t_small (req + ps)) by lia.
      unfold sub64. rewrite to_size_t_small by lia.
      pose proof (Z.mul_div_le (req + ps - 1) ps ltac:(lia)). lia. }
    assert (HQps : Q * ps <= ca + ps) by nia.
    unfold pages.
    destruct (Z.max_spec (Z.max P 1024) Q) as [[_ ->]|[_ ->]]; [lia|].
    destruct (Z.max_spec P 1024) as [[_ ->]|[_ ->]]; lia. }
  assert (Hlen : mul64 pages ps = pages * ps)
    by (unfold mul64; apply to_size_t_small; nia).
  rewrite Hlen in *.
  split; [apply Z.mod_mul; lia|].
  split; [split; [nia|lia]|]. split; [exact Hlo|].
  unfold Z.succ in *. nia.
Qed.

Lemma new_arena_size_witness :
  let sys := cooperative_sys (fun _ => true) in
  exists addr len,
    FileSerializer.createNewArena sys 100 (FileSerializer.make 0 0 0 []) =
    (Ok tt,
     FileSerializer.make 4 (add64 0 len) (add64 0 len)
       (FileSerializer.emplaced sys [] (Arena.create addr 0 len))) /\
    len mod 4096 = 0 /\ 1024 * 4096 <= len < size_t_modulus /\
    100 <= len /\ 0 <= 8 * len + 7 * 4096.
Proof.
  intros sys.
  apply (new_arena_size sys 0 0 [] 100).
  - apply cooperative_sys_cooperative.
  - lia.
  - vm_compute. reflexivity.
  - lia.
  - vm_compute. reflexivity.
Defined.

(** ** Which archives the index accepts *)

Lemma member_region_ok_iff (container : FrozenMemoryRegion.t)
    (h : ZipStructuredReconstituter.Header) :
  0 <= FrozenMemoryRegion.length container < 2 ^ 63 ->
  0 <= ZipStructuredReconstituter.block_length h < 2 ^ 63 ->
  (exists r, member_region container h = Ok r) <-> member_ok container h.
Proof.
  intros Hc Hh.
  assert (H63 : 2 ^ 63 = 9223372036854775808) by reflexivity.
  assert (HM : size_t_modulus = 18446744073709551616) by reflexivity.
  unfold member_region, member_ok.
  set (offset := ZipStructuredReconstituter.currentBlock h
                 - FrozenMemoryRegion.data container).
  set (len := ZipStructuredReconstituter.block_length h) in *.
  destruct (Z.leb_spec 0 offset) as [H0|H0];
    [destruct (Z.leb_spec offset (FrozenMemoryRegion.length container)) as [H1|H1]|];
    cbn [andb].
  - unfold FrozenMemoryRegion.range, add64.
    rewrite (to_size_t_small (offset + len)) by lia.
    destruct (Z.ltb_spec (offset + len) offset); [lia|].
    destruct (Z.ltb_spec (FrozenMemoryRegion.length container) (offset + len)).
    + split; [intros [r Hr]; discriminate|].
      intros [Hz|Hin]; unfold offset in *; lia.
    + split; [|eauto]. intros _. right. unfold offset in *. lia.
  - destruct (Z.eqb_spec len 0) as [Hz|Hz].
    + split; [auto|]. intros _. rewrite Hz.
      unfold FrozenMemoryRegion.range. change (add64 0 0) with 0.
      destruct (Z.ltb_spec 0 0); [lia|].
      destruct (Z.ltb_spec (FrozenMemoryRegion.length container) 0); [lia|eauto].
    + split; [intros [r Hr]; discriminate|].
      intros [Hz'|Hin]; unfold offset in *; lia.
  - destruct (Z.eqb_spec len 0) as [Hz|Hz].
    + split; [auto|]. intros _. rewrite Hz.
      unfold FrozenMemoryRegion.range. change (add64 0 0) with 0.
      destruct (Z.ltb_spec 0 0); [lia|].
      destruct (Z.ltb_spec (FrozenMemoryRegion.length container) 0); [lia|eauto].
    + split; [intros [r Hr]; discriminate|].
      intros [Hz'|Hin]; unfold offset in *; lia.
Qed.

(** X9: for an archive that libarchive has opened and read header by
    header and whose pathnames have parsed, with the container and every
    member shorter than [2^63] bytes, the indexing loop of the constructor
    ends with an index exactly when every member is empty or has its data
    block inside the container: a non-empty member whose block starts or
    ends outside the container (a compressed member, for one) makes the
    loop, and with it the construction, fail.  An archive that libarchive
    rejects, or a pathname that does not parse, makes the constructor fail
    before this condition is looked at. *)
Theorem index_accepts_members_inside (container : FrozenMemoryRegion.t)
    (headers : list ZipStructuredReconstituter.Header)
    (root0 : ZipStructuredReconstituter.Entry) :
  0 <= FrozenMemoryRegion.length container < 2 ^ 63 ->
  Forall (fun h => 0 <= ZipStructuredReconstituter.block_length h < 2 ^ 63)
         headers ->
  ((exists root,
      ZipStructuredReconstituter.index container headers root0 = Ok root) <->
   Forall (member_ok container) headers).
Proof.
  intros Hc. revert root0.
  induction headers as [|h rest IH]; intros root0 Hlens.
  - split; [constructor|]. intros _. exists root0. reflexivity.
  - apply Forall_cons_iff in Hlens. destruct Hlens as [Hh Hrest].
    rewrite index_cons, Forall_cons_iff, <- (member_region_ok_iff container h Hc Hh).
    destruct (member_region container h) as [r| | | |].
    + rewrite (IH _ Hrest). split; [intros H; split; [eauto|exact H]|tauto].
    + split; [intros [x Hx]; discriminate|intros [[x Hx] _]; discriminate].
    + split; [intros [x Hx]; discriminate|intros [[x Hx] _]; discriminate].
    + split; [intros [x Hx]; discriminate|intros [[x Hx] _]; discriminate].
    + split; [intros [x Hx]; discriminate|intros [[x Hx] _]; discriminate].
Qed.

Lemma index_accepts_members_inside_witness :
  (exists root,
     ZipStructuredReconstituter.index scenario_container scenario_headers
       ZipStructuredReconstituter.empty_entry = Ok root) <->
  Forall (member_ok scenario_container) scenario_headers.
Proof.
  apply (index_accepts_members_inside scenario_container scenario_headers
           ZipStructuredReconstituter.empty_entry).
  - cbn. lia.
  - repeat constructor; cbn; lia.
Defined.
